(** * cocofest: stimulation scheduling and the Ding 2003 force model

    A shallow embedding of

    - [OcpFes.prepare_n_shooting] (cocofest/optimization/fes_ocp.py),
    - [DingModelFrequency] (cocofest/models/ding2003.py),
    - [OcpFesId._build_constraints]
      (cocofest/optimization/fes_identification_ocp.py),

    together with the part of Python's [fractions] module that
    [prepare_n_shooting] calls.

    Conventions.  A Python call either returns a value or raises; it is
    embedded as a function into [result].  Python integers are [Z].  A
    finite Python number handed to [Fraction(...)] is represented by its
    exact value in [Q] (for a float, the ratio [float.as_integer_ratio()]
    gives).

    The force model is embedded twice.  [DingModelFrequency] is the
    model on casadi values: they denote real numbers, are embedded in
    [R], and their division never raises; it says what the methods
    compute as long as no divisor is zero (where casadi gives an
    infinity or NaN) and no exponential leaves the range of the floats.
    [DingModelFrequencyNumeric] has the same methods on any kind of
    number, Python floats with NaN and the infinities among them, where
    a division by zero raises [ZeroDivisionError]; on casadi values it
    is [DingModelFrequency].

    The time vector of [_build_constraints] comes from [np.linspace].
    [OcpFesId.linspace] is that grid in exact arithmetic, used for what
    holds of every assignment of the stimulations to nodes;
    [Numpy.linspace] computes it as numpy does, every operation rounded
    to binary64. *)

From Stdlib Require Import ZArith QArith Qabs Qreduction Znumtheory.
From Stdlib Require Import List Bool Lia Sorting.Sorted.
From Stdlib Require Import Reals Lra.
From Stdlib Require String.
Import ListNotations String.StringSyntax.
Delimit Scope string_scope with string.

(* ================================================================= *)
(** ** Python values: exceptions, indexing, ranges *)

Module Py.

Inductive PyError : Set :=
| ZeroDivisionError
| IndexError
| TypeError
| ValueError.

(** Outcome of a call.  [OutOfFuel] belongs to the embedding only: it
    is what a fuel-bounded loop answers when its fuel is too small. *)
Inductive result (A : Type) : Type :=
| Ok (a : A)
| Raise (e : PyError)
| OutOfFuel.
Arguments Ok {A} a.
Arguments Raise {A} e.
Arguments OutOfFuel {A}.

Definition bind {A B : Type} (c : result A) (k : A -> result B) : result B :=
  match c with
  | Ok a => k a
  | Raise e => Raise e
  | OutOfFuel => OutOfFuel
  end.

(** [for x in xs: acc = body(acc, x)] where the body may raise. *)
Fixpoint for_each {A S : Type} (body : S -> A -> result S)
         (xs : list A) (acc : S) : result S :=
  match xs with
  | [] => Ok acc
  | x :: xs' => bind (body acc x) (for_each body xs')
  end.

(** [l[i]] with Python's negative indices. *)
Definition index {A : Type} (l : list A) (i : Z) : result A :=
  let len := Z.of_nat (length l) in
  let j := if (i <? 0)%Z then (i + len)%Z else i in
  if ((j <? 0) || (len <=? j))%Z then Raise IndexError
  else match nth_error l (Z.to_nat j) with
       | Some x => Ok x
       | None => Raise IndexError
       end.

(** [range(a, b)] as a list. *)
Definition range (a b : Z) : list Z :=
  map (fun k => (a + Z.of_nat k)%Z) (seq 0 (Z.to_nat (b - a))).

(** [l[a:b]] for non-negative bounds. *)
Definition slice {A : Type} (l : list A) (a b : Z) : list A :=
  skipn (Z.to_nat a) (firstn (Z.to_nat b) l).

End Py.

Import Py.

Declare Scope py_scope.
Delimit Scope py_scope with py.
Notation "x <- c ;; k" := (bind c (fun x => k))
  (at level 61, c at next level, right associativity) : py_scope.
Open Scope py_scope.

(* ================================================================= *)
(** ** Python dictionaries with string keys *)

Module Dict.

(** A dictionary in insertion order. *)
Definition dict (V : Type) : Type := list (String.string * V).

Definition keys {V : Type} (d : dict V) : list String.string := map fst d.

(** [d.get(k)]: [None] where [d[k]] raises [KeyError]. *)
Fixpoint get {V : Type} (d : dict V) (k : String.string) : option V :=
  match d with
  | [] => None
  | (k', v) :: d' => if String.eqb k k' then Some v else get d' k
  end.

(** [d[k] = v]: the value is replaced where the key stands, a new key
    goes to the end. *)
Fixpoint set {V : Type} (d : dict V) (k : String.string) (v : V) : dict V :=
  match d with
  | [] => [(k, v)]
  | (k', v') :: d' =>
      if String.eqb k k' then (k', v) :: d' else (k', v') :: set d' k v
  end.

(** [{**d, **other}]. *)
Definition merge {V : Type} (d other : dict V) : dict V :=
  fold_left (fun acc kv => set acc (fst kv) (snd kv)) other d.

(** [k in d]. *)
Definition mem {V : Type} (d : dict V) (k : String.string) : bool :=
  existsb (String.eqb k) (keys d).

(** What [{**default, **given}] is for a reader of the result: a key
    resolves to the value [given] has for it, or else to the default
    one; the keys are those of [default] in their order, then the new
    keys of [given] in theirs, none of them twice. *)
Definition filled {V : Type} (default given result : dict V) : Prop :=
  (forall k, get result k
             = match get given k with
               | Some v => Some v
               | None => get default k
               end)
  /\ keys result
     = keys default ++ filter (fun k => negb (mem default k)) (keys given)
  /\ NoDup (keys result).

(** The values the dictionaries of [_fill_dict] hold: [None], a
    boolean, or an object of the caller. *)
Inductive value (U : Type) : Type :=
| PyNone
| PyBool (b : bool)
| PyObject (u : U).
Arguments PyNone {U}.
Arguments PyBool {U} b.
Arguments PyObject {U} u.

End Dict.

(* ================================================================= *)
(** ** The [fractions] module of the Python standard library *)

Module Fractions.

Open Scope Z_scope.

(** A [Fraction] is kept in lowest terms with a positive denominator;
    [Q] gives the positive denominator and [Qred] the lowest terms. *)
Definition Fraction : Type := Q.

(** [Fraction(x)] for a finite number [x], given by its exact value. *)
Definition of_number (x : Q) : Fraction := Qred x.

(** [Fraction(numerator, denominator)]. *)
Definition make (numerator denominator : Z) : result Fraction :=
  if denominator =? 0 then Raise ZeroDivisionError
  else if 0 <? denominator
       then Ok (Qred (numerator # Z.to_pos denominator))
       else Ok (Qred ((- numerator) # Z.to_pos (- denominator))).

Definition numerator (f : Fraction) : Z := Qnum f.
Definition denominator (f : Fraction) : Z := Zpos (Qden f).

(** [a // b] on integers. *)
Definition floordiv (a b : Z) : result Z :=
  if b =? 0 then Raise ZeroDivisionError else Ok (a / b).

(** [a / b] on fractions ([Fraction._div]): the quotient of the cross
    products, brought to lowest terms. *)
Definition div (a b : Fraction) : result Fraction :=
  make (numerator a * denominator b) (denominator a * numerator b).

(** The variables of the [while True] loop of [limit_denominator]. *)
Record cf_state : Set := mk_cf
  { p0 : Z; q0 : Z; p1 : Z; q1 : Z; n : Z; d : Z }.

(** The loop, leaving at [break] with the variables it then holds. *)
Fixpoint cf_loop (fuel : nat) (max_denominator : Z) (s : cf_state)
  : result cf_state :=
  match fuel with
  | O => OutOfFuel
  | S fuel' =>
      a <- floordiv (n s) (d s) ;;
      let q2 := q0 s + a * q1 s in
      if max_denominator <? q2 then Ok s
      else cf_loop fuel' max_denominator
             (mk_cf (p1 s) (q1 s) (p0 s + a * p1 s) q2
                    (d s) (n s - a * d s))
  end.

(** Enough iterations for the loop started at [num/den]. *)
Definition cf_fuel (num den : Z) : nat :=
  Z.to_nat (Z.log2 (Z.abs num * den + 2 * den * den) + 1).

Definition limit_denominator (self : Fraction) (max_denominator : Z)
  : result Fraction :=
  if max_denominator <? 1 then Raise ValueError
  else if denominator self <=? max_denominator then Ok (of_number self)
  else
    s <- cf_loop (cf_fuel (numerator self) (denominator self))
                 max_denominator
                 (mk_cf 0 1 1 0 (numerator self) (denominator self)) ;;
    k <- floordiv (max_denominator - q0 s) (q1 s) ;;
    bound1 <- make (p0 s + k * p1 s) (q0 s + k * q1 s) ;;
    bound2 <- make (p1 s) (q1 s) ;;
    if Qle_bool (Qabs (bound2 - self)) (Qabs (bound1 - self))
    then Ok bound2
    else Ok bound1.

(** *** What the loop preserves *)

(** What the loop of [limit_denominator] keeps true of its variables,
    for a fraction [num/den] in lowest terms with [den] above the
    bound [M]. *)
Record cf_inv (den M : Z) (s : cf_state) : Prop := mk_cf_inv
  { inv_d_pos : 0 < d s;
    inv_coprime : Z.gcd (n s) (d s) = 1;
    inv_den : den = q1 s * n s + q0 s * d s;
    inv_q0 : 0 <= q0 s <= M;
    inv_q1 : q1 s <= M;
    inv_phase : (q1 s = 0 /\ q0 s = 1) \/ (0 < q1 s /\ d s < n s) }.

(** The quantity that at least halves at every iteration. *)
Definition cf_measure (s : cf_state) : Z :=
  if d s <? n s then n s * d s else 2 * d s * d s.

End Fractions.

(* ================================================================= *)
(** ** cocofest/optimization/fes_ocp.py *)

Module OcpFes.

Import Fractions.
Open Scope Z_scope.

(** [Fraction(x).limit_denominator()], with the default bound. *)
Definition to_fraction (x : Q) : result Fraction :=
  limit_denominator (of_number x) 1000000.

(** The body of [for t in stim_time]. *)
Definition n_shooting_step (T_final : Fraction) (n_shooting : Z) (t : Q)
  : result Z :=
  t_frac <- to_fraction t ;;
  norm <- div t_frac T_final ;;
  let d := denominator norm in
  Ok (n_shooting * d / Z.gcd n_shooting d).

(** [prepare_n_shooting(stim_time, final_time)].  The warning printed
    when the result reaches 1000 does not change the returned value
    and is left out. *)
Definition prepare_n_shooting (stim_time : list Q) (final_time : Q)
  : result Z :=
  T_final <- to_fraction final_time ;;
  for_each (n_shooting_step T_final) stim_time 1.

(** The default dictionaries of [_fill_dict]. *)
Definition default_pulse_width {U : Type} : Dict.dict (Dict.value U) :=
  [("fixed"%string, Dict.PyNone); ("min"%string, Dict.PyNone);
   ("max"%string, Dict.PyNone); ("bimapping"%string, Dict.PyBool false)].

Definition default_pulse_intensity {U : Type} : Dict.dict (Dict.value U) :=
  [("fixed"%string, Dict.PyNone); ("min"%string, Dict.PyNone);
   ("max"%string, Dict.PyNone); ("bimapping"%string, Dict.PyBool false)].

Definition default_objective {U : Type} : Dict.dict (Dict.value U) :=
  [("force_tracking"%string, Dict.PyNone);
   ("end_node_tracking"%string, Dict.PyNone);
   ("cycling"%string, Dict.PyNone); ("custom"%string, Dict.PyNone)].

(** [_fill_dict(pulse_width, pulse_intensity, objective)]; an argument
    that is [None] stands for the empty dictionary. *)
Definition _fill_dict {U : Type}
           (pulse_width pulse_intensity objective
            : option (Dict.dict (Dict.value U)))
  : Dict.dict (Dict.value U) * Dict.dict (Dict.value U)
    * Dict.dict (Dict.value U) :=
  let pulse_width :=
    match pulse_width with None => [] | Some d => d end in
  let pulse_intensity :=
    match pulse_intensity with None => [] | Some d => d end in
  let objective :=
    match objective with None => [] | Some d => d end in
  let pulse_width := Dict.merge default_pulse_width pulse_width in
  let pulse_intensity := Dict.merge default_pulse_intensity pulse_intensity in
  let objective := Dict.merge default_objective objective in
  (pulse_width, pulse_intensity, objective).

(** *** The node count as the specification writes it *)

(** The reduced rational a time or the horizon is converted to
    ([to_fraction] always returns, see [to_fraction_returns]). *)
Definition as_fraction (x : Q) : Fraction :=
  match to_fraction x with
  | Ok f => f
  | _ => 0%Q
  end.

(** [d_i]: the denominator of [stim_time[i] / final_time] in lowest
    terms. *)
Definition reduced_denominator (final_time t : Q) : Z :=
  Zpos (Qden (Qred (as_fraction t / as_fraction final_time))).

(** The least common multiple of all the [d_i]. *)
Definition lcm_of_denominators (stim_time : list Q) (final_time : Q) : Z :=
  fold_right Z.lcm 1 (map (reduced_denominator final_time) stim_time).

(** The fold [lcm(acc, d_i) = acc * d_i / gcd(acc, d_i)] started at 1. *)
Definition lcm_fold (stim_time : list Q) (final_time : Q) : Z :=
  fold_left (fun acc d => acc * d / Z.gcd acc d)
            (map (reduced_denominator final_time) stim_time) 1.

End OcpFes.

(* ================================================================= *)
(** ** cocofest/models/ding2003.py *)

Module DingModelFrequency.

Open Scope R_scope.

(** The attributes of a [DingModelFrequency] instance that the
    dynamics read. *)
Record model : Type := mk_model
  { _sum_stim_truncation : option Z;
    is_approximated : bool;
    tauc : R;
    r0_km_relationship : R;
    a_rest : R;
    tau1_rest : R;
    tau2 : R;
    km_rest : R }.

(** [DingModelFrequency(sum_stim_truncation, is_approximated)] with
    the default constants of [__init__]. *)
Definition init (sum_stim_truncation : option Z) (approximated : bool)
  : model :=
  {| _sum_stim_truncation := sum_stim_truncation;
     is_approximated := approximated;
     tauc := 20 / 1000;
     r0_km_relationship := 104 / 100;
     a_rest := 3009;
     tau1_rest := 50957 / 1000000;
     tau2 := 60 / 1000;
     km_rest := 103 / 1000 |}.

Definition set_is_approximated (self : model) (b : bool) : model :=
  {| _sum_stim_truncation := _sum_stim_truncation self;
     is_approximated := b;
     tauc := tauc self;
     r0_km_relationship := r0_km_relationship self;
     a_rest := a_rest self;
     tau1_rest := tau1_rest self;
     tau2 := tau2 self;
     km_rest := km_rest self |}.

Definition set_tauc (self : model) (v : R) : model :=
  {| _sum_stim_truncation := _sum_stim_truncation self;
     is_approximated := is_approximated self;
     tauc := v;
     r0_km_relationship := r0_km_relationship self;
     a_rest := a_rest self;
     tau1_rest := tau1_rest self;
     tau2 := tau2 self;
     km_rest := km_rest self |}.

Definition get_r0 (self : model) (km : R) : R :=
  km + r0_km_relationship self.

Definition get_lambda_i (nb_stim : nat) (pulse_intensity : R) : list R :=
  repeat 1 nb_stim.

(** casadi's [if_else(a <= b, x, y)]. *)
Definition if_else_le (a b x y : R) : R :=
  if Rle_dec a b then x else y.

Definition exp_time_fun (self : model) (t t_stim_i : R) : R :=
  exp (- (t - t_stim_i) / tauc self).

Definition ri_fun (self : model) (r0 time_between_stim : R) : R :=
  1 + (r0 - 1) * exp (- time_between_stim / tauc self).

(** [t_stim_prev[i] - t_stim_prev[i - 1]], the first line of the loop
    body of [cn_sum_fun]; at [i = 0] the index [-1] reads the last
    element. *)
Definition previous_phase_time (t_stim_prev : list R) (i : Z) : result R :=
  ti <- index t_stim_prev i ;;
  tp <- index t_stim_prev (i - 1) ;;
  Ok (ti - tp).

(** The loop body of [cn_sum_fun], with the computation of the gap to
    the previous stimulation passed in as [gap]. *)
Definition cn_sum_body (self : model) (gap : Z -> result R)
           (r0 t : R) (t_stim_prev lambda_i : list R)
           (sum_multiplier : R) (i : Z) : result R :=
  previous_phase_time <- gap i ;;
  let ri := if (i =? 0)%Z then 1 else ri_fun self r0 previous_phase_time in
  t_stim_i <- index t_stim_prev i ;;
  let exp_time := exp_time_fun self t t_stim_i in
  let coefficient :=
    if is_approximated self then 1 else if_else_le t_stim_i t 1 0 in
  lambda <- index lambda_i i ;;
  Ok (sum_multiplier + ri * exp_time * lambda * coefficient).

Definition cn_sum_loop (self : model) (gap : Z -> result R)
           (r0 t : R) (t_stim_prev lambda_i : list R) : result R :=
  for_each (cn_sum_body self gap r0 t t_stim_prev lambda_i)
           (range 0 (Z.of_nat (length t_stim_prev))) 0.

Definition cn_sum_fun (self : model) (r0 t : R)
           (t_stim_prev lambda_i : list R) : result R :=
  cn_sum_loop self (previous_phase_time t_stim_prev)
              r0 t t_stim_prev lambda_i.

Definition cn_dot_fun (self : model) (cn cn_sum : R) : R :=
  (1 / tauc self) * cn_sum - (cn / tauc self).

(** [cn_sum] and [t_stim_prev] default to [None]; the mode decides
    which of the two is read. *)
Definition calculate_cn_dot (self : model) (cn : R) (cn_sum : option R)
           (t : R) (t_stim_prev : option (list R)) : result R :=
  if is_approximated self then
    match cn_sum with
    | Some s => Ok (cn_dot_fun self cn s)
    | None => Raise TypeError
    end
  else
    match t_stim_prev with
    | Some stim =>
        s <- cn_sum_fun self (get_r0 self (km_rest self)) t stim
                        (get_lambda_i (length stim) 1) ;;
        Ok (cn_dot_fun self cn s)
    | None => Raise TypeError
    end.

Definition f_dot_fun (self : model) (cn f a tau1 km : R)
           (force_length_relationship force_velocity_relationship : R)
  : R :=
  (a * (cn / (km + cn)) - (f / (tau1 + tau2 self * (cn / (km + cn)))))
  * force_length_relationship
  * force_velocity_relationship.

(** [vertcat(cn_dot, f_dot)] is the pair of the two derivatives. *)
Definition system_dynamics (self : model) (cn f t : R)
           (t_stim_prev : option (list R)) (cn_sum : option R)
           (force_length_relationship force_velocity_relationship : R)
  : result (R * R) :=
  cn_dot <- calculate_cn_dot self cn cn_sum t t_stim_prev ;;
  let f_dot :=
    f_dot_fun self cn f (a_rest self) (tau1_rest self) (km_rest self)
              force_length_relationship force_velocity_relationship in
  Ok (cn_dot, f_dot).

(** *** The equations as the specification writes them *)

(** [R_i]: 1 for the first event, else [1 + (R0 - 1) exp(-gap / tauc)]. *)
Definition R_spec (tau_c R0 : R) (previous : option R) (t_i : R) : R :=
  match previous with
  | None => 1
  | Some t_prev => 1 + (R0 - 1) * exp (- (t_i - t_prev) / tau_c)
  end.

(** The indicator [1[t_i <= t]], constant 1 in approximated mode. *)
Definition indicator_spec (approximated : bool) (t_i t : R) : R :=
  if approximated then 1 else if Rle_dec t_i t then 1 else 0.

(** The sum over the events of [R_i exp(-(t - t_i)/tauc) lambda_i 1[..]],
    with [lambda_i = 1]. *)
Fixpoint Cn_sum_spec (approximated : bool) (tau_c R0 t : R)
         (previous : option R) (events : list R) : R :=
  match events with
  | [] => 0
  | t_i :: later =>
      R_spec tau_c R0 previous t_i * exp (- (t - t_i) / tau_c) * 1
      * indicator_spec approximated t_i t
      + Cn_sum_spec approximated tau_c R0 t (Some t_i) later
  end.

(** The event before position [k], if there is one. *)
Definition event_before (t_stim_prev : list R) (k : nat) : option R :=
  match k with
  | O => None
  | S k' => Some (nth k' t_stim_prev 0)
  end.

(** The setters used by the identification; the [model] argument is
    there for bioptim and is not read. *)
Definition set_a_rest {M : Type} (self : model) (model_arg : M) (v : R)
  : model :=
  {| _sum_stim_truncation := _sum_stim_truncation self;
     is_approximated := is_approximated self;
     tauc := tauc self;
     r0_km_relationship := r0_km_relationship self;
     a_rest := v;
     tau1_rest := tau1_rest self;
     tau2 := tau2 self;
     km_rest := km_rest self |}.

Definition set_km_rest {M : Type} (self : model) (model_arg : M) (v : R)
  : model :=
  {| _sum_stim_truncation := _sum_stim_truncation self;
     is_approximated := is_approximated self;
     tauc := tauc self;
     r0_km_relationship := r0_km_relationship self;
     a_rest := a_rest self;
     tau1_rest := tau1_rest self;
     tau2 := tau2 self;
     km_rest := v |}.

Definition set_tau1_rest {M : Type} (self : model) (model_arg : M) (v : R)
  : model :=
  {| _sum_stim_truncation := _sum_stim_truncation self;
     is_approximated := is_approximated self;
     tauc := tauc self;
     r0_km_relationship := r0_km_relationship self;
     a_rest := a_rest self;
     tau1_rest := v;
     tau2 := tau2 self;
     km_rest := km_rest self |}.

Definition set_tau2 {M : Type} (self : model) (model_arg : M) (v : R)
  : model :=
  {| _sum_stim_truncation := _sum_stim_truncation self;
     is_approximated := is_approximated self;
     tauc := tauc self;
     r0_km_relationship := r0_km_relationship self;
     a_rest := a_rest self;
     tau1_rest := tau1_rest self;
     tau2 := v;
     km_rest := km_rest self |}.

(** [standard_rest_values()]: the rested values of [Cn] and [F]. *)
Definition standard_rest_values : R * R := (0, 0).

(** [F_dot] of the specification. *)
Definition F_dot_spec (A Tau1 Tau2 Km Cn F : R)
           (force_length_mod force_velocity_mod : R) : R :=
  (A * (Cn / (Km + Cn)) - F / (Tau1 + Tau2 * (Cn / (Km + Cn))))
  * force_length_mod * force_velocity_mod.

End DingModelFrequency.

(* ================================================================= *)
(** ** The numbers handed to the force model *)

Module Numeric.

(** The methods of [DingModelFrequency] apply [+], [-], [*], [/], the
    unary minus, casadi's [exp] and [<=] to whatever numbers they are
    given: casadi values or Python floats.  An [arithmetic] says what
    these operations do on one kind of number.  [zero_divisor y] tells
    whether a division by [y] raises [ZeroDivisionError]: never for a
    casadi value, for a Python float when [y] is zero.  Nothing is
    assumed of the operations: rounding, overflow to an infinity and
    NaN are all among the arithmetics. *)
Record arithmetic : Type := mk_arithmetic
  { number : Type;
    of_int : Z -> number;
    num_add : number -> number -> number;
    num_sub : number -> number -> number;
    num_mul : number -> number -> number;
    num_div : number -> number -> number;
    num_neg : number -> number;
    num_exp : number -> number;
    num_le : number -> number -> bool;
    zero_divisor : number -> bool }.

(** [x / y]. *)
Definition truediv (A : arithmetic) (x y : number A) : result (number A) :=
  if zero_divisor A y then Raise ZeroDivisionError
  else Ok (num_div A x y).

(** A call that returns unless [zero] holds, and then either returns
    or raises [ZeroDivisionError]. *)
Definition returns_unless {T : Type} (zero : bool) (c : result T) : Prop :=
  (exists v, c = Ok v) \/ (zero = true /\ c = Raise ZeroDivisionError).

(** casadi values denote real numbers and their division never
    raises. *)
Definition casadi_values : arithmetic :=
  {| number := R;
     of_int := IZR;
     num_add := Rplus;
     num_sub := Rminus;
     num_mul := Rmult;
     num_div := Rdiv;
     num_neg := Ropp;
     num_exp := exp;
     num_le := fun a b => if Rle_dec a b then true else false;
     zero_divisor := fun _ => false |}.

(** Python floats: the finite ones, the two infinities and NaN.  A
    finite float is represented by the real number it denotes, and the
    operations on finite floats are exact (neither rounding nor
    overflow); the operations on NaN and the infinities are those of
    IEEE 754, the sign of a zero being left out. *)
Inductive pyfloat : Type :=
| Finite (x : R)
| Infinity (negative : bool)
| NaN.

Definition is_zero (x : R) : bool := if Req_EM_T x 0 then true else false.

Definition is_negative (x : R) : bool := if Rlt_dec x 0 then true else false.

Definition float_neg (a : pyfloat) : pyfloat :=
  match a with
  | Finite x => Finite (- x)
  | Infinity s => Infinity (negb s)
  | NaN => NaN
  end.

Definition float_add (a b : pyfloat) : pyfloat :=
  match a, b with
  | NaN, _ | _, NaN => NaN
  | Finite x, Finite y => Finite (x + y)
  | Infinity s, Finite _ | Finite _, Infinity s => Infinity s
  | Infinity s, Infinity s' => if Bool.eqb s s' then Infinity s else NaN
  end.

Definition float_sub (a b : pyfloat) : pyfloat := float_add a (float_neg b).

Definition float_mul (a b : pyfloat) : pyfloat :=
  match a, b with
  | NaN, _ | _, NaN => NaN
  | Finite x, Finite y => Finite (x * y)
  | Infinity s, Finite y | Finite y, Infinity s =>
      if is_zero y then NaN else Infinity (xorb s (is_negative y))
  | Infinity s, Infinity s' => Infinity (xorb s s')
  end.

(** [a / b] for a divisor that is not zero. *)
Definition float_div (a b : pyfloat) : pyfloat :=
  match a, b with
  | NaN, _ | _, NaN => NaN
  | Finite x, Finite y => Finite (x / y)
  | Finite _, Infinity _ => Finite 0
  | Infinity s, Finite y => Infinity (xorb s (is_negative y))
  | Infinity _, Infinity _ => NaN
  end.

Definition float_exp (a : pyfloat) : pyfloat :=
  match a with
  | Finite x => Finite (exp x)
  | Infinity false => Infinity false
  | Infinity true => Finite 0
  | NaN => NaN
  end.

(** [a <= b]: false as soon as one side is NaN. *)
Definition float_le (a b : pyfloat) : bool :=
  match a, b with
  | NaN, _ | _, NaN => false
  | Finite x, Finite y => if Rle_dec x y then true else false
  | Infinity true, _ => true
  | _, Infinity false => true
  | _, _ => false
  end.

Definition float_zero (a : pyfloat) : bool :=
  match a with
  | Finite x => is_zero x
  | _ => false
  end.

Definition python_floats : arithmetic :=
  {| number := pyfloat;
     of_int := fun k => Finite (IZR k);
     num_add := float_add;
     num_sub := float_sub;
     num_mul := float_mul;
     num_div := float_div;
     num_neg := float_neg;
     num_exp := float_exp;
     num_le := float_le;
     zero_divisor := float_zero |}.

End Numeric.

(* ================================================================= *)
(** ** cocofest/models/ding2003.py, on any kind of number *)

(** The methods of [DingModelFrequency] once more, with the divisions
    that may raise: [DingModelFrequency] above is what they compute on
    casadi values. *)
Module DingModelFrequencyNumeric.

Import Numeric.

Section Methods.

Variable A : arithmetic.

Local Notation "'num'" := (number A).

Record model : Type := mk_model
  { _sum_stim_truncation : option Z;
    is_approximated : bool;
    tauc : num;
    r0_km_relationship : num;
    a_rest : num;
    tau1_rest : num;
    tau2 : num;
    km_rest : num }.

Definition set_is_approximated (self : model) (b : bool) : model :=
  {| _sum_stim_truncation := _sum_stim_truncation self;
     is_approximated := b;
     tauc := tauc self;
     r0_km_relationship := r0_km_relationship self;
     a_rest := a_rest self;
     tau1_rest := tau1_rest self;
     tau2 := tau2 self;
     km_rest := km_rest self |}.

Definition get_r0 (self : model) (km : num) : num :=
  num_add A km (r0_km_relationship self).

Definition get_lambda_i (nb_stim : nat) (pulse_intensity : num) : list num :=
  repeat (of_int A 1) nb_stim.

Definition exp_time_fun (self : model) (t t_stim_i : num) : result num :=
  q <- truediv A (num_neg A (num_sub A t t_stim_i)) (tauc self) ;;
  Ok (num_exp A q).

Definition ri_fun (self : model) (r0 time_between_stim : num) : result num :=
  q <- truediv A (num_neg A time_between_stim) (tauc self) ;;
  Ok (num_add A (of_int A 1)
              (num_mul A (num_sub A r0 (of_int A 1)) (num_exp A q))).

(** The loop body of [cn_sum_fun]. *)
Definition cn_sum_body (self : model) (r0 t : num)
           (t_stim_prev lambda_i : list num)
           (sum_multiplier : num) (i : Z) : result num :=
  t_i <- index t_stim_prev i ;;
  t_before <- index t_stim_prev (i - 1) ;;
  let previous_phase_time := num_sub A t_i t_before in
  ri <- (if (i =? 0)%Z then Ok (of_int A 1)
         else ri_fun self r0 previous_phase_time) ;;
  t_stim_i <- index t_stim_prev i ;;
  exp_time <- exp_time_fun self t t_stim_i ;;
  let coefficient :=
    if is_approximated self then of_int A 1
    else if num_le A t_stim_i t then of_int A 1 else of_int A 0 in
  lambda <- index lambda_i i ;;
  Ok (num_add A sum_multiplier
              (num_mul A (num_mul A (num_mul A ri exp_time) lambda)
                       coefficient)).

Definition cn_sum_fun (self : model) (r0 t : num)
           (t_stim_prev lambda_i : list num) : result num :=
  for_each (cn_sum_body self r0 t t_stim_prev lambda_i)
           (range 0 (Z.of_nat (length t_stim_prev))) (of_int A 0).

Definition cn_dot_fun (self : model) (cn cn_sum : num) : result num :=
  gain <- truediv A (of_int A 1) (tauc self) ;;
  decay <- truediv A cn (tauc self) ;;
  Ok (num_sub A (num_mul A gain cn_sum) decay).

Definition calculate_cn_dot (self : model) (cn : num) (cn_sum : option num)
           (t : num) (t_stim_prev : option (list num)) : result num :=
  if is_approximated self then
    match cn_sum with
    | Some s => cn_dot_fun self cn s
    | None => Raise TypeError
    end
  else
    match t_stim_prev with
    | Some stim =>
        s <- cn_sum_fun self (get_r0 self (km_rest self)) t stim
                        (get_lambda_i (length stim) (of_int A 1)) ;;
        cn_dot_fun self cn s
    | None => Raise TypeError
    end.

Definition f_dot_fun (self : model) (cn f a tau1 km : num)
           (force_length_relationship force_velocity_relationship : num)
  : result num :=
  saturation <- truediv A cn (num_add A km cn) ;;
  saturation' <- truediv A cn (num_add A km cn) ;;
  relaxation <-
    truediv A f (num_add A tau1 (num_mul A (tau2 self) saturation')) ;;
  Ok (num_mul A
        (num_mul A (num_sub A (num_mul A a saturation) relaxation)
                 force_length_relationship)
        force_velocity_relationship).

Definition system_dynamics (self : model) (cn f t : num)
           (t_stim_prev : option (list num)) (cn_sum : option num)
           (force_length_relationship force_velocity_relationship : num)
  : result (num * num) :=
  cn_dot <- calculate_cn_dot self cn cn_sum t t_stim_prev ;;
  f_dot <- f_dot_fun self cn f (a_rest self) (tau1_rest self) (km_rest self)
                     force_length_relationship force_velocity_relationship ;;
  Ok (cn_dot, f_dot).

(** The three divisors of [system_dynamics]: [tauc], [Km + Cn] and
    [Tau1 + Tau2 * (Cn / (Km + Cn))]. *)
Definition divisors (self : model) (cn : num) : list num :=
  [tauc self;
   num_add A (km_rest self) cn;
   num_add A (tau1_rest self)
           (num_mul A (tau2 self)
                    (num_div A cn (num_add A (km_rest self) cn)))].

(** The two derivatives as expressions, for divisions that return. *)
Definition cn_dot_value (self : model) (cn cn_sum : num) : num :=
  num_sub A (num_mul A (num_div A (of_int A 1) (tauc self)) cn_sum)
          (num_div A cn (tauc self)).

Definition f_dot_value (self : model) (cn f : num)
           (force_length_relationship force_velocity_relationship : num)
  : num :=
  let saturation := num_div A cn (num_add A (km_rest self) cn) in
  num_mul A
    (num_mul A
       (num_sub A (num_mul A (a_rest self) saturation)
                (num_div A f
                         (num_add A (tau1_rest self)
                                  (num_mul A (tau2 self) saturation))))
       force_length_relationship)
    force_velocity_relationship.

End Methods.

Arguments mk_model {A}.
Arguments _sum_stim_truncation {A}.
Arguments is_approximated {A}.
Arguments tauc {A}.
Arguments r0_km_relationship {A}.
Arguments a_rest {A}.
Arguments tau1_rest {A}.
Arguments tau2 {A}.
Arguments km_rest {A}.
Arguments set_is_approximated {A}.
Arguments get_r0 {A}.
Arguments exp_time_fun {A}.
Arguments ri_fun {A}.
Arguments cn_sum_body {A}.
Arguments cn_sum_fun {A}.
Arguments cn_dot_fun {A}.
Arguments calculate_cn_dot {A}.
Arguments f_dot_fun {A}.
Arguments system_dynamics {A}.
Arguments divisors {A}.
Arguments cn_dot_value {A}.
Arguments f_dot_value {A}.

(** [DingModelFrequency()] on Python floats, with the constants of
    [__init__]. *)
Definition init (sum_stim_truncation : option Z) (approximated : bool)
  : model python_floats :=
  @mk_model python_floats sum_stim_truncation approximated
            (Finite (20 / 1000)) (Finite (104 / 100)) (Finite 3009)
            (Finite (50957 / 1000000)) (Finite (60 / 1000))
            (Finite (103 / 1000)).

Definition set_tauc {A : arithmetic} (self : model A) (v : number A)
  : model A :=
  @mk_model A (_sum_stim_truncation self) (is_approximated self) v
            (r0_km_relationship self) (a_rest self) (tau1_rest self)
            (tau2 self) (km_rest self).

(** A model on casadi values, from its constants. *)
Definition on_casadi (self : DingModelFrequency.model)
  : model casadi_values :=
  @mk_model casadi_values
            (DingModelFrequency._sum_stim_truncation self)
            (DingModelFrequency.is_approximated self)
            (DingModelFrequency.tauc self)
            (DingModelFrequency.r0_km_relationship self)
            (DingModelFrequency.a_rest self)
            (DingModelFrequency.tau1_rest self)
            (DingModelFrequency.tau2 self)
            (DingModelFrequency.km_rest self).

End DingModelFrequencyNumeric.

(* ================================================================= *)
(** ** numpy's [linspace] in binary64 *)

Module Binary64.

Open Scope Z_scope.

(** The integer nearest to [n / d], the even one of two nearest. *)
Definition round_half_even (n : Z) (d : positive) : Z :=
  let q := n / Zpos d in
  let r := n mod Zpos d in
  match 2 * r ?= Zpos d with
  | Lt => q
  | Gt => q + 1
  | Eq => if Z.even q then q else q + 1
  end.

(** The integer part of [log2 (n / d)], for a positive [n]. *)
Definition floor_log2 (n : Z) (d : positive) : Z :=
  let l := Z.log2 n - Z.log2 (Zpos d) in
  let reached :=
    if 0 <=? l then Zpos d * 2 ^ l <=? n else Zpos d <=? n * 2 ^ (- l) in
  if reached then l else l - 1.

(** The exponent of the last of the 53 bits kept for [n / d]; the
    subnormal numbers keep fewer, down to [2^-1074]. *)
Definition last_bit (n : Z) (d : positive) : Z :=
  Z.max (floor_log2 n d - 52) (-1074).

(** [m * 2^e]. *)
Definition scale (m e : Z) : Q :=
  if 0 <=? e then inject_Z (m * 2 ^ e)
  else Qred (m # Z.to_pos (2 ^ (- e))).

(** The binary64 number nearest to [x], ties to even.  The exponent
    range is not bounded above: a value beyond the largest float is
    rounded like the others instead of becoming an infinity. *)
Definition round (x : Q) : Q :=
  let n := Qnum x in
  let d := Qden x in
  if n =? 0 then 0%Q
  else
    let e := last_bit (Z.abs n) d in
    let m := if 0 <=? e then round_half_even n (d * Z.to_pos (2 ^ e))
             else round_half_even (n * 2 ^ (- e)) d in
    scale m e.

End Binary64.

Module Numpy.

(** [np.linspace(start, stop, num)] with the default [endpoint=True],
    every operation rounded to binary64: the samples are
    [k * step + start] with [step = (stop - start) / (num - 1)] (or
    [(k / (num - 1)) * (stop - start)] when the step rounds to zero),
    and the last one is then set to [stop]. *)
Definition linspace (start stop : Q) (num : Z) : result (list Q) :=
  if (num <? 0)%Z then Raise ValueError
  else
    let start := Binary64.round start in
    let stop := Binary64.round stop in
    let div := inject_Z (num - 1) in
    let delta := Binary64.round (stop - start) in
    let step := Binary64.round (delta / div) in
    let scaled (y : Q) : Q :=
      if (0 <? num - 1)%Z then
        if Qeq_bool step 0
        then Binary64.round (Binary64.round (y / div) * delta)
        else Binary64.round (y * step)
      else Binary64.round (y * delta) in
    let y :=
      map (fun k =>
             Binary64.round (scaled (Binary64.round (inject_Z k)) + start))
          (range 0 num) in
    Ok (if (1 <? num)%Z then removelast y ++ [stop] else y).

End Numpy.

(* ================================================================= *)
(** ** cocofest/optimization/fes_identification_ocp.py *)

Module OcpFesId.

Open Scope Z_scope.

(** bioptim's [ControlType]. *)
Inductive ControlType : Set :=
| CONSTANT
| LINEAR_CONTINUOUS
| CONSTANT_WITH_LAST_NODE.

(** The two [constraints.add(...)] calls, with their keyword
    arguments. *)
Inductive Constraint : Type :=
| cn_sum_identification (node : Z) (stim_time : list Q) (stim_index : list Z)
| a_calculation_identification (node : Z) (last_stim_index : Z).

(** [np.linspace(start, stop, num)] in exact arithmetic; for [num = 1]
    the only sample is [start]. *)
Definition linspace (start stop : Q) (num : Z) : result (list Q) :=
  if num <? 0 then Raise ValueError
  else
    let step := ((stop - start) / inject_Z (num - 1))%Q in
    Ok (map (fun k => (inject_Z k * step + start)%Q) (range 0 num)).

(** [np.where(cond)[0][0]]: the first position where [cond] holds. *)
Fixpoint first_where (cond : list bool) (k : Z) : result Z :=
  match cond with
  | [] => Raise IndexError
  | b :: cond' => if b then Ok k else first_where cond' (k + 1)
  end.

(** [[np.where(stim_time[i] <= time_vector)[0][0] for i in ...]]. *)
Fixpoint stim_at_node_of (stim_time time_vector : list Q)
  : result (list Z) :=
  match stim_time with
  | [] => Ok []
  | s :: later =>
      k <- first_where (map (fun tv => Qle_bool s tv) time_vector) 0 ;;
      ks <- stim_at_node_of later time_vector ;;
      Ok (k :: ks)
  end.

(** [model._sum_stim_truncation] if it is truthy, else [10000000]. *)
Definition max_stim_to_keep_of (model : DingModelFrequency.model) : Z :=
  match DingModelFrequency._sum_stim_truncation model with
  | Some k => if k =? 0 then 10000000 else k
  | None => 10000000
  end.

(** The variables the first loop carries from node to node. *)
Record window : Type := mk_window
  { index_sup : Z; index_inf : Z; stim_index : list Z }.

Definition window_init : window := mk_window 0 0 [].

(** The [if i in stim_at_node:] block. *)
Definition window_step (stim_at_node : list Z) (max_stim_to_keep : Z)
           (w : window) (i : Z) : window :=
  if existsb (Z.eqb i) stim_at_node then
    let sup := index_sup w + 1 in
    let inf := if max_stim_to_keep <=? sup
               then sup - max_stim_to_keep else index_inf w in
    mk_window sup inf (range inf sup)
  else w.

(** The first loop: one [cn_sum_identification] constraint per node. *)
Fixpoint cn_sum_constraints (stim_time : list Q) (stim_at_node : list Z)
         (max_stim_to_keep : Z) (w : window) (nodes : list Z)
  : list Constraint :=
  match nodes with
  | [] => []
  | i :: later =>
      let w' := window_step stim_at_node max_stim_to_keep w i in
      cn_sum_identification
        i (slice stim_time (index_inf w') (index_sup w')) (stim_index w')
      :: cn_sum_constraints stim_time stim_at_node max_stim_to_keep w' later
  end.

(** The loop variables as they stand when node [i]'s constraint is
    added: the steps of nodes [0 .. i] applied to the initial ones. *)
Definition window_at (stim_at_node : list Z) (max_stim_to_keep : Z)
           (i : Z) : window :=
  fold_left (window_step stim_at_node max_stim_to_keep)
            (range 0 (i + 1)) window_init.

(** The second loop, run for the pulse-width model only. *)
Fixpoint a_calculation_constraints (stim_at_node : list Z)
         (index_sup : Z) (nodes : list Z) : list Constraint :=
  match nodes with
  | [] => []
  | i :: later =>
      let sup := if existsb (Z.eqb i) stim_at_node && negb (i =? 0)
                 then index_sup + 1 else index_sup in
      a_calculation_identification i sup
      :: a_calculation_constraints stim_at_node sup later
  end.

(** The first two lines of [_build_constraints]: the node each
    stimulation is assigned to. *)
Definition stim_at_node (n_shooting : Z) (final_time : Q)
           (stim_time : list Q) : result (list Z) :=
  time_vector <- linspace 0 final_time (n_shooting + 1) ;;
  stim_at_node_of stim_time time_vector.

Definition additional_nodes (control_type : ControlType) : Z :=
  match control_type with
  | LINEAR_CONTINUOUS => 1
  | _ => 0
  end.

(** [_build_constraints(model, n_shooting, final_time, stim_time,
    control_type)]; [pulse_width_model] is the outcome of
    [isinstance(model, DingModelPulseWidthFrequency)]. *)
Definition _build_constraints (model : DingModelFrequency.model)
           (pulse_width_model : bool) (n_shooting : Z) (final_time : Q)
           (stim_time : list Q) (control_type : ControlType)
  : result (list Constraint) :=
  stim_at_node <- stim_at_node n_shooting final_time stim_time ;;
  let max_stim_to_keep := max_stim_to_keep_of model in
  let nodes := range 0 (n_shooting + additional_nodes control_type) in
  let constraints :=
    cn_sum_constraints stim_time stim_at_node max_stim_to_keep
                       window_init nodes in
  if pulse_width_model
  then Ok (constraints ++ a_calculation_constraints stim_at_node 0 nodes)
  else Ok constraints.


(** How many stimulation events lie at or before time [t]. *)
Definition events_at_or_before (stim_time : list Q) (t : Q) : Z :=
  Z.of_nat (length (filter (fun s => Qle_bool s t) stim_time)).

(** What the first loop keeps true of its variables when at least one
    stimulation is kept. *)
Record window_inv (max_stim_to_keep : Z) (w : window) : Prop := mk_window_inv
  { inv_sup : 0 <= index_sup w;
    inv_inf : index_inf w
              = index_sup w - Z.min max_stim_to_keep (index_sup w);
    inv_index : stim_index w = range (index_inf w) (index_sup w) }.

(** How many stimulations are assigned to a node up to [n]. *)
Definition assigned_up_to (san : list Z) (n : Z) : Z :=
  Z.of_nat (length (filter (fun k => k <=? n) san)).

(** The last index of a list of stimulation indices, [-1] if none. *)
Definition last_stim (stim_index : list Z) : Z := last stim_index (-1).

(** The node-to-stimulus mapping never goes back: of two
    [cn_sum_identification] constraints, the later one ends at a
    stimulation index at least as large. *)
Definition mapping_monotone (constraints : list Constraint) : Prop :=
  forall (i j : nat) (ni nj : Z) (sti stj : list Q) (si sj : list Z),
    (i <= j)%nat ->
    nth_error constraints i = Some (cn_sum_identification ni sti si) ->
    nth_error constraints j = Some (cn_sum_identification nj stj sj) ->
    last_stim si <= last_stim sj.

(** The constraint of the first loop for a node whose loop variables
    are [w]. *)
Definition constraint_of (stim_time : list Q) (i : Z) (w : window)
  : Constraint :=
  cn_sum_identification
    i (slice stim_time (index_inf w) (index_sup w)) (stim_index w).

(** *** The builder on the time vector numpy returns *)

(** [_build_constraints] from its second line on, [time_vector] being
    what [np.linspace(0, final_time, n_shooting + 1)] returned. *)
Definition _build_constraints_on (time_vector : list Q)
           (model : DingModelFrequency.model) (pulse_width_model : bool)
           (n_shooting : Z) (stim_time : list Q)
           (control_type : ControlType) : result (list Constraint) :=
  stim_at_node <- stim_at_node_of stim_time time_vector ;;
  let max_stim_to_keep := max_stim_to_keep_of model in
  let nodes := range 0 (n_shooting + additional_nodes control_type) in
  let constraints :=
    cn_sum_constraints stim_time stim_at_node max_stim_to_keep
                       window_init nodes in
  if pulse_width_model
  then Ok (constraints ++ a_calculation_constraints stim_at_node 0 nodes)
  else Ok constraints.

(** The first two lines of [_build_constraints] in binary64. *)
Definition stim_at_node_np (n_shooting : Z) (final_time : Q)
           (stim_time : list Q) : result (list Z) :=
  time_vector <- Numpy.linspace 0 final_time (n_shooting + 1) ;;
  stim_at_node_of stim_time time_vector.

(** [_build_constraints] with the time vector computed in binary64, as
    numpy does; the stimulation times and the horizon are floats, given
    by their exact values. *)
Definition _build_constraints_np (model : DingModelFrequency.model)
           (pulse_width_model : bool) (n_shooting : Z) (final_time : Q)
           (stim_time : list Q) (control_type : ControlType)
  : result (list Constraint) :=
  time_vector <- Numpy.linspace 0 final_time (n_shooting + 1) ;;
  _build_constraints_on time_vector model pulse_width_model n_shooting
                        stim_time control_type.

(** The 7 Hz train [[k / 7 for k in range(7)]], each time the float
    that the division returns. *)
Definition train_7hz : list Q :=
  [0;
   2573485501354569 # 18014398509481984;
   2573485501354569 # 9007199254740992;
   7720456504063707 # 18014398509481984;
   2573485501354569 # 4503599627370496;
   6433713753386423 # 9007199254740992;
   7720456504063707 # 9007199254740992]%Q.

End OcpFesId.

(* ================================================================= *)
(** * Properties *)

(** ** The result monad *)

Lemma bind_inv_Ok {A B : Type} (c : result A) (k : A -> result B) (b : B) :
  bind c k = Ok b -> exists a, c = Ok a /\ k a = Ok b.
Proof. destruct c as [a | e |]; simpl; intros H; try discriminate; eauto. Qed.

(** ** [fractions]: the conversions always return *)

Section FractionFacts.

Import Fractions.
Open Scope Z_scope.

Lemma make_pos (a b : Z) :
  0 < b -> make a b = Ok (Qred (a # Z.to_pos b)).
Proof.
  intros Hb. unfold make.
  destruct (Z.eqb_spec b 0); [lia |].
  destruct (Z.ltb_spec 0 b); [reflexivity | lia].
Qed.

Lemma make_neg (a b : Z) :
  b < 0 -> make a b = Ok (Qred ((- a) # Z.to_pos (- b))).
Proof.
  intros Hb. unfold make.
  destruct (Z.eqb_spec b 0); [lia |].
  destruct (Z.ltb_spec 0 b); [lia | reflexivity].
Qed.

Lemma cf_step_measure (s : cf_state) :
  0 < d s -> 0 < n s mod d s ->
  2 * cf_measure (mk_cf (p1 s) (q1 s) (p0 s + n s / d s * p1 s)
                        (q0 s + n s / d s * q1 s)
                        (d s) (n s - n s / d s * d s))
  < cf_measure s.
Proof.
  intros Hd Hr. unfold cf_measure; cbn [n d].
  pose proof (Z.div_mod (n s) (d s) ltac:(lia)) as Hdm.
  pose proof (Z.mod_pos_bound (n s) (d s) Hd) as Hb.
  replace (n s - n s / d s * d s) with (n s mod d s) by lia.
  destruct (Z.ltb_spec (n s mod d s) (d s)); [| lia].
  destruct (Z.ltb_spec (d s) (n s)) as [Hlt | Hge].
  - assert (1 <= n s / d s) by (apply Z.div_le_lower_bound; lia).
    assert (Hsum : d s + n s mod d s <= n s) by nia.
    assert (H1 : 0 <= (n s - d s - n s mod d s) * d s)
      by (apply Z.mul_nonneg_nonneg; lia).
    assert (H2 : 0 < (d s - n s mod d s) * d s)
      by (apply Z.mul_pos_pos; lia).
    lia.
  - assert (H2 : 0 < (d s - n s mod d s) * d s)
      by (apply Z.mul_pos_pos; lia).
    lia.
Qed.

Lemma cf_loop_returns (den M : Z) :
  1 <= M -> M < den ->
  forall (fuel : nat) (s : cf_state),
    cf_inv den M s ->
    cf_measure s < 2 ^ Z.of_nat fuel ->
    exists s', cf_loop fuel M s = Ok s'
               /\ 0 < q1 s' /\ 0 <= q0 s' <= M /\ q1 s' <= M.
Proof.
  intros HM Hden fuel.
  induction fuel as [| fuel IH]; intros s Hinv Hfuel.
  - destruct Hinv as [Hd _ _ _ _ _]. unfold cf_measure in Hfuel.
    change (2 ^ Z.of_nat 0) with 1 in Hfuel.
    destruct (d s <? n s) eqn:E; [apply Z.ltb_lt in E |]; nia.
  - destruct Hinv as [Hd Hco Hdn Hq0 Hq1 Hph].
    cbn [cf_loop]. unfold floordiv.
    destruct (Z.eqb_spec (d s) 0) as [? | _]; [lia |]. cbn [bind].
    pose proof (Z.div_mod (n s) (d s) ltac:(lia)) as Hdm.
    pose proof (Z.mod_pos_bound (n s) (d s) Hd) as Hb.
    destruct (Z.ltb_spec M (q0 s + n s / d s * q1 s)) as [Hbrk | Hgo].
    + exists s. split; [reflexivity |].
      destruct Hph as [[H1 H0] | [H1 _]]; [| lia].
      rewrite H1, H0 in Hbrk. lia.
    + assert (Hr : 0 < n s mod d s).
      { destruct (Z.eq_dec (n s mod d s) 0) as [Hz | ?]; [| lia].
        exfalso.
        assert (Hdiv : (d s | n s)) by (apply Z.mod_divide; [lia | exact Hz]).
        assert (Hd1 : d s = 1).
        { apply Z.divide_gcd_iff in Hdiv; [| lia].
          rewrite Z.gcd_comm in Hdiv. lia. }
        rewrite Hd1 in *. rewrite Z.div_1_r in *. nia. }
      apply IH.
      * constructor; cbn [n d p0 q0 p1 q1].
        -- lia.
        -- replace (n s - n s / d s * d s) with (n s mod d s) by lia.
           rewrite Z.gcd_mod_r. rewrite Z.gcd_comm. exact Hco.
        -- rewrite Hdn. ring.
        -- destruct Hph as [[H1 H0] | [H1 _]]; lia.
        -- lia.
        -- right. split; [| lia].
           destruct Hph as [[H1 H0] | [H1 Hlt]].
           ++ rewrite H1, H0. lia.
           ++ assert (1 <= n s / d s) by (apply Z.div_le_lower_bound; lia).
              nia.
      * pose proof (cf_step_measure s Hd Hr) as Hm.
        rewrite Nat2Z.inj_succ, Z.pow_succ_r in Hfuel by lia.
        lia.
Qed.

Lemma cf_fuel_enough (num den : Z) :
  0 < den ->
  cf_measure (mk_cf 0 1 1 0 num den) < 2 ^ Z.of_nat (cf_fuel num den).
Proof.
  intros Hden. unfold cf_fuel, cf_measure; cbn [n d].
  set (v := Z.abs num * den + 2 * den * den).
  assert (Hv : 0 < v) by (unfold v; nia).
  pose proof (Z.log2_spec v Hv) as [_ Hup].
  pose proof (Z.log2_nonneg v).
  rewrite Z2Nat.id by lia.
  unfold Z.succ in Hup.
  destruct (Z.ltb_spec den num); unfold v in *; nia.
Qed.

(** [limit_denominator] returns on every fraction in lowest terms. *)
Lemma limit_denominator_returns (x : Q) (M : Z) :
  1 <= M -> exists y, limit_denominator (of_number x) M = Ok y.
Proof.
  intros HM. unfold limit_denominator.
  destruct (Z.ltb_spec M 1); [lia |].
  destruct (Z.leb_spec (denominator (of_number x)) M) as [? | Hbig];
    [eauto |].
  set (num := numerator (of_number x)).
  set (den := denominator (of_number x)) in *.
  assert (Hden : 0 < den) by (unfold den, denominator; lia).
  destruct (cf_loop_returns den M HM Hbig (cf_fuel num den)
                            (mk_cf 0 1 1 0 num den))
    as (s & Hs & Hq1 & Hq0 & Hq1M).
  - constructor; cbn [n d p0 q0 p1 q1]; try lia.
    unfold num, den, numerator, denominator, of_number.
    apply gcd_Qred.
  - apply cf_fuel_enough; exact Hden.
  - rewrite Hs. cbn [bind]. unfold floordiv.
    destruct (Z.eqb_spec (q1 s) 0); [lia |]. cbn [bind].
    assert (Hk : 0 <= (M - q0 s) / q1 s) by (apply Z.div_pos; lia).
    assert (Hb1 : 0 < q0 s + (M - q0 s) / q1 s * q1 s).
    { destruct (Z.eq_dec (q0 s) 0) as [H0 | ?]; [| nia].
      rewrite H0, Z.sub_0_r.
      assert (1 <= M / q1 s) by (apply Z.div_le_lower_bound; lia).
      nia. }
    rewrite (make_pos _ _ Hb1). cbn [bind].
    rewrite (make_pos _ _ Hq1). cbn [bind].
    destruct (Qle_bool _ _); eauto.
Qed.

End FractionFacts.

(** ** [prepare_n_shooting] *)

Section NShootingFacts.

Import Fractions OcpFes.
Open Scope Z_scope.

Lemma to_fraction_returns (x : Q) : to_fraction x = Ok (as_fraction x).
Proof.
  unfold as_fraction.
  destruct (limit_denominator_returns x 1000000 ltac:(lia)) as [y Hy].
  unfold to_fraction. rewrite Hy. reflexivity.
Qed.

(** Dividing by a non-zero fraction gives the quotient in lowest
    terms. *)
Lemma div_nonzero (a b : Fraction) :
  ~ (b == 0)%Q -> div a b = Ok (Qred (a / b)).
Proof.
  intros Hb. unfold div, numerator, denominator.
  destruct a as [na da], b as [nb db]; cbn [Qnum Qden].
  destruct nb as [| p | p].
  - exfalso. apply Hb. reflexivity.
  - rewrite make_pos by lia. reflexivity.
  - rewrite make_neg by lia. f_equal. apply Qred_complete.
    unfold Qeq, Qdiv, Qmult, Qinv; cbn [Qnum Qden].
    replace (Z.to_pos (- (Z.pos da * Z.neg p))) with (da * p)%positive
      by reflexivity.
    f_equal. lia.
Qed.

(** The update of the accumulator is the least common multiple. *)
Lemma lcm_step (acc dv : Z) :
  0 < acc -> 0 < dv -> acc * dv / Z.gcd acc dv = Z.lcm acc dv.
Proof.
  intros Ha Hd. unfold Z.lcm.
  assert (Hg : 0 < Z.gcd acc dv).
  { pose proof (Z.gcd_nonneg acc dv).
    destruct (Z.eq_dec (Z.gcd acc dv) 0) as [E | ?]; [| lia].
    apply Z.gcd_eq_0_l in E. lia. }
  rewrite Z.divide_div_mul_exact by (try lia; apply Z.gcd_divide_r).
  rewrite Z.abs_eq; [reflexivity |].
  apply Z.mul_nonneg_nonneg; [lia |].
  apply Z.div_pos; lia.
Qed.

Lemma lcm_pos (a b : Z) : 0 < a -> 0 < b -> 0 < Z.lcm a b.
Proof.
  intros Ha Hb. pose proof (Z.lcm_nonneg a b).
  destruct (Z.eq_dec (Z.lcm a b) 0) as [E | ?]; [| lia].
  apply Z.lcm_eq_0 in E. lia.
Qed.

Lemma reduced_denominator_pos (T t : Q) : 0 < reduced_denominator T t.
Proof. unfold reduced_denominator. lia. Qed.

Lemma n_shooting_step_lcm (T : Q) (acc : Z) (t : Q) :
  ~ (as_fraction T == 0)%Q -> 0 < acc ->
  n_shooting_step (as_fraction T) acc t
  = Ok (Z.lcm acc (reduced_denominator T t)).
Proof.
  intros HT Hacc. unfold n_shooting_step.
  rewrite to_fraction_returns. cbn [bind].
  rewrite (div_nonzero _ _ HT). cbn [bind].
  unfold denominator. f_equal.
  apply lcm_step; [exact Hacc | apply reduced_denominator_pos].
Qed.

Lemma for_each_n_shooting (T : Q) (stim : list Q) :
  ~ (as_fraction T == 0)%Q ->
  forall acc, 0 < acc ->
    for_each (n_shooting_step (as_fraction T)) stim acc
    = Ok (fold_left Z.lcm (map (reduced_denominator T) stim) acc).
Proof.
  intros HT. induction stim as [| t stim IH]; intros acc Hacc.
  - reflexivity.
  - cbn [for_each map fold_left].
    rewrite (n_shooting_step_lcm T acc t HT Hacc). cbn [bind].
    apply IH. apply lcm_pos; [exact Hacc | apply reduced_denominator_pos].
Qed.

Lemma fold_left_lcm_acc (ds : list Z) (acc : Z) :
  0 <= acc ->
  fold_left Z.lcm ds acc = Z.lcm acc (fold_right Z.lcm 1 ds).
Proof.
  revert acc. induction ds as [| dv ds IH]; intros acc Hacc.
  - cbn [fold_left fold_right]. symmetry. apply Z.lcm_1_r_nonneg. exact Hacc.
  - cbn [fold_left fold_right].
    rewrite IH by apply Z.lcm_nonneg.
    symmetry. apply Z.lcm_assoc.
Qed.

Lemma fold_left_step_lcm (ds : list Z) :
  Forall (fun dv => 0 < dv) ds ->
  forall acc, 0 < acc ->
    fold_left (fun a dv => a * dv / Z.gcd a dv) ds acc
    = fold_left Z.lcm ds acc.
Proof.
  induction 1 as [| dv ds Hd _ IH]; intros acc Hacc; [reflexivity |].
  cbn [fold_left]. rewrite (lcm_step acc dv Hacc Hd).
  apply IH. apply lcm_pos; assumption.
Qed.

Lemma denominators_pos (T : Q) (stim : list Q) :
  Forall (fun dv => 0 < dv) (map (reduced_denominator T) stim).
Proof.
  apply Forall_forall. intros dv Hin.
  apply in_map_iff in Hin. destruct Hin as (t & <- & _).
  apply reduced_denominator_pos.
Qed.

Lemma fold_right_lcm_pos (ds : list Z) :
  Forall (fun dv => 0 < dv) ds -> 0 < fold_right Z.lcm 1 ds.
Proof.
  induction 1 as [| dv ds Hd _ IH]; cbn [fold_right]; [lia |].
  apply lcm_pos; assumption.
Qed.

Lemma fold_right_lcm_multiple (ds : list Z) :
  Forall (fun dv => (dv | fold_right Z.lcm 1 ds)) ds.
Proof.
  induction ds as [| dv ds IH]; constructor; cbn [fold_right].
  - apply Z.divide_lcm_l.
  - eapply Forall_impl; [| exact IH].
    intros x Hx. cbv beta in Hx.
    eapply Z.divide_trans; [exact Hx | apply Z.divide_lcm_r].
Qed.

Lemma fold_right_lcm_least (ds : list Z) (m : Z) :
  Forall (fun dv => (dv | m)) ds -> (fold_right Z.lcm 1 ds | m).
Proof.
  induction 1 as [| dv ds Hd _ IH]; cbn [fold_right].
  - apply Z.divide_1_l.
  - apply Z.lcm_least; assumption.
Qed.

(** When the converted horizon is not zero, the call returns the least
    common multiple of the reduced denominators, whatever the times. *)
Lemma prepare_n_shooting_returns (stim : list Q) (T : Q) :
  ~ (as_fraction T == 0)%Q ->
  prepare_n_shooting stim T = Ok (lcm_of_denominators stim T).
Proof.
  intros HT. unfold prepare_n_shooting, lcm_of_denominators.
  rewrite to_fraction_returns. cbn [bind].
  rewrite (for_each_n_shooting T stim HT 1) by lia.
  rewrite fold_left_lcm_acc by lia.
  f_equal. apply Z.lcm_1_l_nonneg.
  apply Z.lt_le_incl, fold_right_lcm_pos, denominators_pos.
Qed.

End NShootingFacts.

(** C1 (as amended).  For every list of stimulation times and every
    horizon whose conversion [Fraction(final_time).limit_denominator()]
    is not zero, [prepare_n_shooting] returns the least common multiple
    of the reduced denominators [d_i] of [stim_time[i] / final_time]
    (times and horizon first converted to reduced rationals): a positive
    number that every [d_i] divides and that divides every common
    multiple of the [d_i]; it is the value of the fold
    [acc * d_i / gcd(acc, d_i)] started at 1.  For the empty list it
    returns 1, for every horizon. *)
Theorem prepare_n_shooting_is_lcm (stim_time : list Q) (final_time : Q) :
  OcpFes.prepare_n_shooting [] final_time = Ok 1%Z
  /\ (~ (OcpFes.as_fraction final_time == 0)%Q ->
      let ds := map (OcpFes.reduced_denominator final_time) stim_time in
      let n := OcpFes.lcm_of_denominators stim_time final_time in
      OcpFes.prepare_n_shooting stim_time final_time = Ok n
      /\ n = OcpFes.lcm_fold stim_time final_time
      /\ (0 < n)%Z
      /\ Forall (fun dv => (dv | n)%Z) ds
      /\ (forall m, Forall (fun dv => (dv | m)%Z) ds -> (n | m)%Z)).
Proof.
  split.
  - unfold OcpFes.prepare_n_shooting.
    rewrite to_fraction_returns. reflexivity.
  - intros HT ds n. subst ds n. repeat split.
    + apply prepare_n_shooting_returns; exact HT.
    + unfold OcpFes.lcm_fold, OcpFes.lcm_of_denominators.
      rewrite fold_left_step_lcm by (try lia; apply denominators_pos).
      rewrite fold_left_lcm_acc by lia.
      symmetry. apply Z.lcm_1_l_nonneg.
      apply Z.lt_le_incl, fold_right_lcm_pos, denominators_pos.
    + apply fold_right_lcm_pos, denominators_pos.
    + apply fold_right_lcm_multiple.
    + apply fold_right_lcm_least.
Qed.

(** The horizon 1.0 converts to 1, and the times 0.0, 0.5, 0.75 give
    the denominators 1, 2, 4, hence 4 nodes. *)
Lemma prepare_n_shooting_is_lcm_witness :
  ~ (OcpFes.as_fraction 1 == 0)%Q
  /\ OcpFes.prepare_n_shooting [0; 1 # 2; 3 # 4]%Q 1 = Ok 4%Z.
Proof.
  assert (H : ~ (OcpFes.as_fraction 1 == 0)%Q)
    by (vm_compute; discriminate).
  split; [exact H |].
  exact (proj1 (proj2 (prepare_n_shooting_is_lcm [0; 1 # 2; 3 # 4]%Q 1) H)).
Defined.

(** C1 (as stated) fails: the horizon [2^-24] is positive but is
    converted to the fraction 0, and the division by it raises. *)
Lemma prepare_n_shooting_tiny_horizon :
  (0 < 1 # 16777216)%Q
  /\ OcpFes.prepare_n_shooting [0%Q] (1 # 16777216) = Raise ZeroDivisionError.
Proof. split; [reflexivity | vm_compute; reflexivity]. Qed.

(** C5.  For the floats [0.0], [1/3], [2/3] (given by their exact
    ratios) and the horizon [1.0], [prepare_n_shooting] returns 3. *)
Theorem prepare_n_shooting_thirds :
  OcpFes.prepare_n_shooting
    [0; 6004799503160661 # 18014398509481984;
        6004799503160661 # 9007199254740992]%Q 1
  = Ok 3%Z.
Proof. vm_compute. reflexivity. Qed.

(** C6 (as amended).  [prepare_n_shooting] checks no range: for a
    stimulation list with a time below 0 or above the horizon (the
    converted horizon not being zero) it raises nothing and returns a
    node count, at least 1, computed as for any other list. *)
Theorem prepare_n_shooting_out_of_range_returns
        (stim_time : list Q) (final_time : Q) :
  ~ (OcpFes.as_fraction final_time == 0)%Q ->
  (exists t, In t stim_time /\ (t < 0 \/ final_time < t)%Q) ->
  OcpFes.prepare_n_shooting stim_time final_time
  = Ok (OcpFes.lcm_of_denominators stim_time final_time)
  /\ (1 <= OcpFes.lcm_of_denominators stim_time final_time)%Z.
Proof.
  intros HT _. split.
  - apply prepare_n_shooting_returns; exact HT.
  - pose proof (fold_right_lcm_pos _ (denominators_pos final_time stim_time)).
    unfold OcpFes.lcm_of_denominators. lia.
Qed.

Lemma prepare_n_shooting_out_of_range_returns_witness :
  OcpFes.prepare_n_shooting [1 # 2; 3]%Q 1
  = Ok (OcpFes.lcm_of_denominators [1 # 2; 3]%Q 1)
  /\ (1 <= OcpFes.lcm_of_denominators [1 # 2; 3]%Q 1)%Z.
Proof.
  apply (prepare_n_shooting_out_of_range_returns [1 # 2; 3]%Q 1).
  - vm_compute; discriminate.
  - exists 3%Q. split; [right; left; reflexivity | right; reflexivity].
Defined.

(** C6 (as stated) fails: the time 2.0 lies after the horizon 1.0, the
    time -0.5 before 0, and both calls return a node count. *)
Lemma prepare_n_shooting_out_of_range :
  (1 < 2)%Q /\ OcpFes.prepare_n_shooting [2%Q] 1 = Ok 1%Z
  /\ (-1 # 2 < 0)%Q /\ OcpFes.prepare_n_shooting [(-1 # 2)%Q] 1 = Ok 2%Z.
Proof. repeat split; vm_compute; reflexivity. Qed.

(** ** Indexing and ranges *)

Section IndexFacts.

Context {A : Type}.

Lemma index_nonneg (l : list A) (i : Z) (dflt : A) :
  (0 <= i < Z.of_nat (length l))%Z ->
  index l i = Ok (nth (Z.to_nat i) l dflt).
Proof.
  intros Hi. unfold index.
  destruct (Z.ltb_spec i 0); [lia |].
  destruct (Z.ltb_spec i 0); [lia |].
  destruct (Z.leb_spec (Z.of_nat (length l)) i); [lia |].
  cbn [orb].
  rewrite (nth_error_nth' l dflt) by lia. reflexivity.
Qed.

Lemma index_negative (l : list A) (i : Z) (dflt : A) :
  (- Z.of_nat (length l) <= i < 0)%Z ->
  index l i = Ok (nth (Z.to_nat (i + Z.of_nat (length l))) l dflt).
Proof.
  intros Hi. unfold index.
  destruct (Z.ltb_spec i 0); [| lia].
  destruct (Z.ltb_spec (i + Z.of_nat (length l)) 0); [lia |].
  destruct (Z.leb_spec (Z.of_nat (length l)) (i + Z.of_nat (length l)));
    [lia |].
  cbn [orb].
  rewrite (nth_error_nth' l dflt) by lia. reflexivity.
Qed.

Lemma skipn_nth_cons (l : list A) (k : nat) (dflt : A) :
  (k < length l)%nat -> skipn k l = nth k l dflt :: skipn (S k) l.
Proof.
  revert k. induction l as [| x l IH]; intros k Hk; cbn in Hk; [lia |].
  destruct k as [| k]; [reflexivity |].
  cbn [skipn nth]. apply IH. lia.
Qed.

End IndexFacts.

Lemma range_from_zero (m : nat) :
  range 0 (Z.of_nat m) = map Z.of_nat (seq 0 m).
Proof.
  unfold range. rewrite Z.sub_0_r, Nat2Z.id. reflexivity.
Qed.

Lemma for_each_ext {A S : Type} (f g : S -> A -> result S) (xs : list A) :
  (forall acc x, In x xs -> f acc x = g acc x) ->
  forall acc, for_each f xs acc = for_each g xs acc.
Proof.
  induction xs as [| x xs IH]; intros Hfg acc; [reflexivity |].
  cbn [for_each]. rewrite (Hfg acc x) by (left; reflexivity).
  destruct (g acc x); cbn [bind]; try reflexivity.
  apply IH. intros acc' y Hy. apply Hfg. right. exact Hy.
Qed.

(** ** The Ding 2003 model *)

Section DingFacts.

Import DingModelFrequency.
Open Scope R_scope.

Variable self : model.

Lemma lambda_i_is_one (nb_stim : nat) (pulse_intensity : R) (i : Z) :
  (0 <= i < Z.of_nat nb_stim)%Z ->
  index (get_lambda_i nb_stim pulse_intensity) i = Ok 1.
Proof.
  intros Hi. unfold get_lambda_i.
  rewrite (index_nonneg _ i 1) by (rewrite repeat_length; exact Hi).
  f_equal. apply nth_repeat.
Qed.

(** The gap to the previous stimulation, read without raising: at
    index 0 from the last element, later from the element before. *)
Lemma previous_phase_time_first (t_stim_prev : list R) :
  t_stim_prev <> [] ->
  previous_phase_time t_stim_prev 0
  = Ok (nth 0 t_stim_prev 0 - last t_stim_prev 0).
Proof.
  intros Hne. unfold previous_phase_time.
  assert (Hlen : (0 < length t_stim_prev)%nat)
    by (destruct t_stim_prev; [congruence | cbn; lia]).
  rewrite (index_nonneg _ 0%Z 0) by lia. cbn [bind].
  rewrite (index_negative _ (0 - 1)%Z 0) by lia. cbn [bind].
  do 2 f_equal. change (Z.to_nat 0) with 0%nat.
  replace (Z.to_nat (0 - 1 + Z.of_nat (length t_stim_prev)))
    with (length t_stim_prev - 1)%nat by lia.
  destruct t_stim_prev as [| x l]; [congruence |].
  rewrite (app_removelast_last 0 Hne) at 1 2.
  rewrite length_app. cbn [length].
  replace (length (removelast (x :: l)) + 1 - 1)%nat
    with (length (removelast (x :: l))) by lia.
  rewrite nth_middle. reflexivity.
Qed.

Lemma previous_phase_time_later (t_stim_prev : list R) (k : nat) :
  (S k < length t_stim_prev)%nat ->
  previous_phase_time t_stim_prev (Z.of_nat (S k))
  = Ok (nth (S k) t_stim_prev 0 - nth k t_stim_prev 0).
Proof.
  intros Hk. unfold previous_phase_time.
  rewrite (index_nonneg _ _ 0) by lia. cbn [bind].
  rewrite (index_nonneg _ _ 0) by lia. cbn [bind].
  rewrite Nat2Z.id.
  replace (Z.to_nat (Z.of_nat (S k) - 1)) with k by lia.
  reflexivity.
Qed.

Lemma cn_sum_body_term (r0 t : R) (t_stim_prev : list R) (acc : R)
      (k : nat) :
  (k < length t_stim_prev)%nat ->
  cn_sum_body self (previous_phase_time t_stim_prev) r0 t t_stim_prev
              (get_lambda_i (length t_stim_prev) 1) acc (Z.of_nat k)
  = Ok (acc
        + R_spec (tauc self) r0 (event_before t_stim_prev k)
                 (nth k t_stim_prev 0)
          * exp (- (t - nth k t_stim_prev 0) / tauc self) * 1
          * indicator_spec (is_approximated self) (nth k t_stim_prev 0) t).
Proof.
  intros Hk. unfold cn_sum_body.
  assert (Hne : t_stim_prev <> [])
    by (destruct t_stim_prev; [cbn in Hk; lia | discriminate]).
  destruct k as [| k].
  - change (Z.of_nat 0) with 0%Z.
    rewrite (previous_phase_time_first _ Hne). cbn [bind].
    rewrite (index_nonneg _ 0%Z 0) by lia. cbn [bind].
    rewrite lambda_i_is_one by lia. cbn [bind].
    reflexivity.
  - rewrite (previous_phase_time_later _ k Hk). cbn [bind].
    rewrite (index_nonneg _ _ 0) by lia. cbn [bind].
    rewrite lambda_i_is_one by lia. cbn [bind].
    rewrite Nat2Z.id.
    destruct (Z.eqb_spec (Z.of_nat (S k)) 0) as [E | _]; [lia |].
    reflexivity.
Qed.

Lemma cn_sum_loop_from (r0 t : R) (t_stim_prev : list R) (m k : nat) :
  (k + m = length t_stim_prev)%nat ->
  forall acc,
    for_each (cn_sum_body self (previous_phase_time t_stim_prev) r0 t
                          t_stim_prev (get_lambda_i (length t_stim_prev) 1))
             (map Z.of_nat (seq k m)) acc
    = Ok (acc + Cn_sum_spec (is_approximated self) (tauc self) r0 t
                            (event_before t_stim_prev k)
                            (skipn k t_stim_prev)).
Proof.
  revert k. induction m as [| m IH]; intros k Hkm acc.
  - replace k with (length t_stim_prev) by lia.
    rewrite skipn_all. cbn. f_equal. ring.
  - cbn [seq map for_each].
    rewrite cn_sum_body_term by lia. cbn [bind].
    rewrite IH by lia.
    rewrite (skipn_nth_cons t_stim_prev k 0) by lia.
    cbn [Cn_sum_spec event_before]. f_equal. ring.
Qed.

(** [cn_sum_fun] returns the sum of the specification. *)
Lemma cn_sum_fun_spec (r0 t : R) (t_stim_prev : list R) :
  cn_sum_fun self r0 t t_stim_prev (get_lambda_i (length t_stim_prev) 1)
  = Ok (Cn_sum_spec (is_approximated self) (tauc self) r0 t None
                    t_stim_prev).
Proof.
  unfold cn_sum_fun, cn_sum_loop.
  rewrite range_from_zero.
  rewrite (cn_sum_loop_from r0 t t_stim_prev (length t_stim_prev) 0)
    by lia.
  cbn [skipn event_before]. f_equal. ring.
Qed.

Lemma cn_dot_fun_formula (cn cn_sum : R) :
  cn_dot_fun self cn cn_sum = cn_sum / tauc self - cn / tauc self.
Proof. unfold cn_dot_fun, Rdiv. ring. Qed.

End DingFacts.

(** C2.  With [cn_sum] set to the sum [cn_sum_fun] computes in exact
    mode, [calculate_cn_dot] in approximated mode returns the same
    derivative as [calculate_cn_dot] in exact mode on the same state,
    time and stimulation history, and both are
    [cn_sum / tauc - Cn / tauc]. *)
Theorem cn_dot_modes_agree (self : DingModelFrequency.model) (cn t : R)
        (t_stim_prev : list R)
        (unused_cn_sum : option R) (unused_t_stim_prev : option (list R)) :
  let exact := DingModelFrequency.set_is_approximated self false in
  let approximated := DingModelFrequency.set_is_approximated self true in
  exists cn_sum : R,
    DingModelFrequency.cn_sum_fun
      exact
      (DingModelFrequency.get_r0 exact (DingModelFrequency.km_rest exact))
      t t_stim_prev
      (DingModelFrequency.get_lambda_i (length t_stim_prev) 1)
    = Ok cn_sum
    /\ DingModelFrequency.calculate_cn_dot
         approximated cn (Some cn_sum) t unused_t_stim_prev
       = DingModelFrequency.calculate_cn_dot
           exact cn unused_cn_sum t (Some t_stim_prev)
    /\ DingModelFrequency.calculate_cn_dot
         exact cn unused_cn_sum t (Some t_stim_prev)
       = Ok (cn_sum / DingModelFrequency.tauc self
             - cn / DingModelFrequency.tauc self)%R.
Proof.
  intros exact approximated.
  eexists. split; [apply cn_sum_fun_spec |].
  unfold DingModelFrequency.calculate_cn_dot.
  cbn [DingModelFrequency.is_approximated exact approximated
       DingModelFrequency.set_is_approximated].
  rewrite (cn_sum_fun_spec
             (DingModelFrequency.set_is_approximated self false)).
  cbn [bind]. split.
  - reflexivity.
  - rewrite cn_dot_fun_formula. reflexivity.
Qed.


(** C4.  [f_dot_fun] returns
    [(A (Cn/(Km+Cn)) - F/(Tau1 + Tau2 (Cn/(Km+Cn))))] times
    [force_length_mod] times [force_velocity_mod], with [Tau2] the
    model's constant, and [system_dynamics] evaluates it at [a_rest],
    [tau1_rest], [km_rest]: that value is the second component of what
    it returns, on every stimulation history in exact mode. *)
Theorem f_dot_fun_formula (self : DingModelFrequency.model)
        (cn f a tau1 km t fl fv : R)
        (t_stim_prev : option (list R)) (cn_sum : option R) :
  DingModelFrequency.f_dot_fun self cn f a tau1 km fl fv
  = DingModelFrequency.F_dot_spec
      a tau1 (DingModelFrequency.tau2 self) km cn f fl fv
  /\ DingModelFrequency.system_dynamics self cn f t t_stim_prev cn_sum fl fv
     = (cn_dot <- DingModelFrequency.calculate_cn_dot
                    self cn cn_sum t t_stim_prev ;;
        Ok (cn_dot,
            DingModelFrequency.F_dot_spec
              (DingModelFrequency.a_rest self)
              (DingModelFrequency.tau1_rest self)
              (DingModelFrequency.tau2 self)
              (DingModelFrequency.km_rest self) cn f fl fv))
  /\ (forall history : list R,
         exists cn_dot : R,
           DingModelFrequency.system_dynamics
             (DingModelFrequency.set_is_approximated self false)
             cn f t (Some history) cn_sum fl fv
           = Ok (cn_dot,
                 DingModelFrequency.F_dot_spec
                   (DingModelFrequency.a_rest self)
                   (DingModelFrequency.tau1_rest self)
                   (DingModelFrequency.tau2 self)
                   (DingModelFrequency.km_rest self) cn f fl fv)).
Proof.
  split; [reflexivity | split; [reflexivity |]].
  intros history. eexists.
  unfold DingModelFrequency.system_dynamics,
    DingModelFrequency.calculate_cn_dot.
  cbn [DingModelFrequency.is_approximated
       DingModelFrequency.set_is_approximated].
  rewrite (cn_sum_fun_spec
             (DingModelFrequency.set_is_approximated self false)).
  cbn [bind]. reflexivity.
Qed.

(** ** The model on any kind of number *)

Section NumericFacts.

Import Numeric DingModelFrequencyNumeric.

Variable A : arithmetic.

Lemma returns_unless_bind {T U : Type} (zero : bool) (c : result T)
      (k : T -> result U) :
  returns_unless zero c ->
  (forall a, c = Ok a -> returns_unless zero (k a)) ->
  returns_unless zero (bind c k).
Proof.
  intros [[v ->] | [Hz ->]] Hk.
  - cbn [bind]. apply Hk. reflexivity.
  - right. split; [exact Hz | reflexivity].
Qed.

Lemma returns_unless_weaken {T : Type} (zero zero' : bool) (c : result T) :
  (zero = true -> zero' = true) ->
  returns_unless zero c -> returns_unless zero' c.
Proof.
  intros Hz [Hv | [Ht Hc]]; [left; exact Hv | right].
  split; [apply Hz; exact Ht | exact Hc].
Qed.

Lemma returns_unless_for_each {T S : Type} (zero : bool)
      (body : S -> T -> result S) (xs : list T) :
  (forall acc x, In x xs -> returns_unless zero (body acc x)) ->
  forall acc, returns_unless zero (for_each body xs acc).
Proof.
  induction xs as [| x xs IH]; intros Hbody acc; cbn [for_each].
  - left. exists acc. reflexivity.
  - apply returns_unless_bind.
    + apply Hbody. left. reflexivity.
    + intros acc' _. apply IH. intros acc'' y Hy. apply Hbody.
      right. exact Hy.
Qed.

Lemma truediv_returns_unless (x y : number A) :
  returns_unless (zero_divisor A y) (truediv A x y).
Proof.
  unfold truediv. destruct (zero_divisor A y).
  - right. split; reflexivity.
  - left. eexists. reflexivity.
Qed.

Lemma truediv_Ok (x y q : number A) :
  truediv A x y = Ok q -> q = num_div A x y.
Proof.
  unfold truediv. destruct (zero_divisor A y); [discriminate |].
  intros H. injection H as <-. reflexivity.
Qed.

Variable self : model A.

Lemma exp_time_fun_returns_unless (t t_stim_i : number A) :
  returns_unless (zero_divisor A (tauc self)) (exp_time_fun self t t_stim_i).
Proof.
  unfold exp_time_fun. apply returns_unless_bind.
  - apply truediv_returns_unless.
  - intros q _. left. eexists. reflexivity.
Qed.

Lemma ri_fun_returns_unless (r0 time_between_stim : number A) :
  returns_unless (zero_divisor A (tauc self))
                 (ri_fun self r0 time_between_stim).
Proof.
  unfold ri_fun. apply returns_unless_bind.
  - apply truediv_returns_unless.
  - intros q _. left. eexists. reflexivity.
Qed.

(** Inside the loop every index is within the list, the index [-1] of
    the first turn included. *)
Lemma cn_sum_body_returns_unless (r0 t : number A)
      (t_stim_prev lambda_i : list (number A)) (acc : number A) (i : Z) :
  (0 <= i < Z.of_nat (length t_stim_prev))%Z ->
  length lambda_i = length t_stim_prev ->
  returns_unless (zero_divisor A (tauc self))
                 (cn_sum_body self r0 t t_stim_prev lambda_i acc i).
Proof.
  intros Hi Hlen. unfold cn_sum_body.
  rewrite (index_nonneg t_stim_prev i (of_int A 0)) by exact Hi.
  cbn [bind].
  assert (Hbefore : exists v, index t_stim_prev (i - 1) = Ok v).
  { destruct (Z.eq_dec i 0) as [-> | Hne].
    - eexists. apply (index_negative _ _ (of_int A 0)). lia.
    - eexists. apply (index_nonneg _ _ (of_int A 0)). lia. }
  destruct Hbefore as [t_before ->]. cbn [bind].
  apply returns_unless_bind.
  - destruct (i =? 0)%Z; [left; eexists; reflexivity |].
    apply ri_fun_returns_unless.
  - intros ri _. apply returns_unless_bind.
    + apply exp_time_fun_returns_unless.
    + intros exp_time _.
      rewrite (index_nonneg lambda_i i (of_int A 0)) by (rewrite Hlen; exact Hi).
      cbn [bind]. left. eexists. reflexivity.
Qed.

Lemma cn_sum_fun_returns_unless (r0 t : number A)
      (t_stim_prev : list (number A)) (pulse_intensity : number A) :
  returns_unless (zero_divisor A (tauc self))
                 (cn_sum_fun self r0 t t_stim_prev
                             (get_lambda_i A (length t_stim_prev)
                                           pulse_intensity)).
Proof.
  unfold cn_sum_fun. apply returns_unless_for_each.
  intros acc i Hin. apply cn_sum_body_returns_unless.
  - rewrite range_from_zero in Hin. apply in_map_iff in Hin.
    destruct Hin as (k & <- & Hk). apply in_seq in Hk. lia.
  - unfold get_lambda_i. apply repeat_length.
Qed.

Lemma cn_dot_fun_returns_unless (cn cn_sum : number A) :
  returns_unless (zero_divisor A (tauc self)) (cn_dot_fun self cn cn_sum).
Proof.
  unfold cn_dot_fun. apply returns_unless_bind.
  - apply truediv_returns_unless.
  - intros gain _. apply returns_unless_bind.
    + apply truediv_returns_unless.
    + intros decay _. left. eexists. reflexivity.
Qed.

Lemma f_dot_fun_returns_unless (cn f fl fv : number A) :
  returns_unless
    (existsb (zero_divisor A) (divisors self cn))
    (f_dot_fun self cn f (a_rest self) (tau1_rest self) (km_rest self)
               fl fv).
Proof.
  unfold f_dot_fun, divisors. cbn [existsb].
  apply returns_unless_bind.
  { eapply returns_unless_weaken; [| apply truediv_returns_unless].
    intros ->. rewrite orb_true_r. reflexivity. }
  intros saturation _. apply returns_unless_bind.
  { eapply returns_unless_weaken; [| apply truediv_returns_unless].
    intros ->. rewrite orb_true_r. reflexivity. }
  intros saturation' Hs. apply truediv_Ok in Hs. subst saturation'.
  apply returns_unless_bind.
  { eapply returns_unless_weaken; [| apply truediv_returns_unless].
    intros ->. rewrite !orb_true_r. reflexivity. }
  intros relaxation _. left. eexists. reflexivity.
Qed.

End NumericFacts.

Lemma system_dynamics_returns_unless
      (A : Numeric.arithmetic) (self : DingModelFrequencyNumeric.model A)
      (cn f t fl fv : Numeric.number A)
      (t_stim_prev : option (list (Numeric.number A)))
      (cn_sum : option (Numeric.number A)) :
  (if DingModelFrequencyNumeric.is_approximated self
   then cn_sum <> None else t_stim_prev <> None) ->
  Numeric.returns_unless
    (existsb (Numeric.zero_divisor A)
             (DingModelFrequencyNumeric.divisors self cn))
    (DingModelFrequencyNumeric.system_dynamics
       self cn f t t_stim_prev cn_sum fl fv).
Proof.
  intros Hgiven.
  unfold DingModelFrequencyNumeric.system_dynamics.
  apply returns_unless_bind.
  - eapply (returns_unless_weaken
              (Numeric.zero_divisor A (DingModelFrequencyNumeric.tauc self))).
    { intros E. unfold DingModelFrequencyNumeric.divisors.
      cbn [existsb]. rewrite E. reflexivity. }
    unfold DingModelFrequencyNumeric.calculate_cn_dot.
    destruct (DingModelFrequencyNumeric.is_approximated self).
    + destruct cn_sum as [s |]; [| congruence].
      apply cn_dot_fun_returns_unless.
    + destruct t_stim_prev as [stim |]; [| congruence].
      apply returns_unless_bind.
      * apply cn_sum_fun_returns_unless.
      * intros s _. apply cn_dot_fun_returns_unless.
  - intros cn_dot _. apply returns_unless_bind.
    + apply f_dot_fun_returns_unless.
    + intros f_dot _. left. eexists. reflexivity.
Qed.

(** On casadi values, whose division never raises, the methods are
    those of [DingModelFrequency]. *)
Lemma cn_sum_fun_on_casadi
      (self : DingModelFrequency.model) (r0 t : R)
      (t_stim_prev lambda_i : list R) :
  DingModelFrequencyNumeric.cn_sum_fun
    (DingModelFrequencyNumeric.on_casadi self) r0 t t_stim_prev lambda_i
  = DingModelFrequency.cn_sum_fun self r0 t t_stim_prev lambda_i.
Proof.
  unfold DingModelFrequencyNumeric.cn_sum_fun,
    DingModelFrequency.cn_sum_fun, DingModelFrequency.cn_sum_loop.
  apply for_each_ext. intros acc i _.
  unfold DingModelFrequencyNumeric.cn_sum_body,
    DingModelFrequency.cn_sum_body,
    DingModelFrequency.previous_phase_time,
    DingModelFrequencyNumeric.ri_fun,
    DingModelFrequencyNumeric.exp_time_fun,
    DingModelFrequency.ri_fun, DingModelFrequency.exp_time_fun,
    DingModelFrequency.if_else_le, Numeric.truediv.
  cbn [DingModelFrequencyNumeric.is_approximated
       DingModelFrequencyNumeric.tauc
       DingModelFrequencyNumeric.on_casadi
       Numeric.casadi_values Numeric.of_int Numeric.zero_divisor
       Numeric.num_add Numeric.num_sub Numeric.num_mul
       Numeric.num_div Numeric.num_neg Numeric.num_exp
       Numeric.num_le Numeric.number].
  cbv beta.
  destruct (index t_stim_prev i) as [t_i | e |]; try reflexivity.
  cbn [bind].
  destruct (index t_stim_prev (i - 1)) as [t_before | e |];
    try reflexivity.
  cbn [bind].
  destruct (index lambda_i i) as [lambda | e |];
    destruct (i =? 0)%Z; cbn [bind]; try reflexivity;
    destruct (DingModelFrequency.is_approximated self);
    try reflexivity; destruct (Rle_dec t_i t); reflexivity.
Qed.

Lemma system_dynamics_on_casadi
      (self : DingModelFrequency.model) (cn f t fl fv : R)
      (t_stim_prev : option (list R)) (cn_sum : option R) :
  DingModelFrequencyNumeric.system_dynamics
    (DingModelFrequencyNumeric.on_casadi self)
    cn f t t_stim_prev cn_sum fl fv
  = DingModelFrequency.system_dynamics
      self cn f t t_stim_prev cn_sum fl fv.
Proof.
  unfold DingModelFrequencyNumeric.system_dynamics,
    DingModelFrequency.system_dynamics,
    DingModelFrequencyNumeric.calculate_cn_dot,
    DingModelFrequency.calculate_cn_dot.
  cbn [DingModelFrequencyNumeric.is_approximated
       DingModelFrequencyNumeric.on_casadi].
  destruct (DingModelFrequency.is_approximated self).
  - destruct cn_sum as [s |]; reflexivity.
  - destruct t_stim_prev as [stim |]; [| reflexivity].
    rewrite cn_sum_fun_on_casadi.
    change (DingModelFrequencyNumeric.get_lambda_i
              Numeric.casadi_values (length stim)
              (Numeric.of_int Numeric.casadi_values 1))
      with (DingModelFrequency.get_lambda_i (length stim) 1).
    change (DingModelFrequencyNumeric.get_r0
              (DingModelFrequencyNumeric.on_casadi self)
              (DingModelFrequencyNumeric.km_rest
                 (DingModelFrequencyNumeric.on_casadi self)))
      with (DingModelFrequency.get_r0
              self (DingModelFrequency.km_rest self)).
    destruct (DingModelFrequency.cn_sum_fun _ _ _ _ _); reflexivity.
Qed.

(** C7 (as amended).  [system_dynamics] validates none of its inputs.
    On any kind of number, NaN and infinities included, and for
    constants of any sign, it returns the pair of derivatives in either
    mode (given the argument that mode reads) whenever none of its
    three divisors [tauc], [Km + Cn], [Tau1 + Tau2 (Cn / (Km + Cn))]
    is a zero whose division raises; and whatever it is given, the only
    exception it raises is the [ZeroDivisionError] of one of these
    divisions. *)
Theorem system_dynamics_validates_nothing
        (A : Numeric.arithmetic) (self : DingModelFrequencyNumeric.model A)
        (cn f t fl fv cn_sum : Numeric.number A)
        (t_stim_prev : list (Numeric.number A))
        (unused_cn_sum : option (Numeric.number A))
        (unused_t_stim_prev : option (list (Numeric.number A))) :
  let approximated :=
    DingModelFrequencyNumeric.system_dynamics
      (DingModelFrequencyNumeric.set_is_approximated self true)
      cn f t unused_t_stim_prev (Some cn_sum) fl fv in
  let exact :=
    DingModelFrequencyNumeric.system_dynamics
      (DingModelFrequencyNumeric.set_is_approximated self false)
      cn f t (Some t_stim_prev) unused_cn_sum fl fv in
  let f_dot := DingModelFrequencyNumeric.f_dot_value self cn f fl fv in
  (Forall (fun d => Numeric.zero_divisor A d = false)
          (DingModelFrequencyNumeric.divisors self cn) ->
   approximated
   = Ok (DingModelFrequencyNumeric.cn_dot_value self cn cn_sum, f_dot)
   /\ (exists exact_sum,
          exact
          = Ok (DingModelFrequencyNumeric.cn_dot_value self cn exact_sum,
                f_dot)))
  /\ (forall e : PyError,
         approximated = Raise e \/ exact = Raise e ->
         e = ZeroDivisionError
         /\ Exists (fun d => Numeric.zero_divisor A d = true)
                   (DingModelFrequencyNumeric.divisors self cn))
  /\ approximated <> OutOfFuel
  /\ exact <> OutOfFuel.
Proof.
  intros approximated exact f_dot.
  assert (Ha : Numeric.returns_unless
                 (existsb (Numeric.zero_divisor A)
                          (DingModelFrequencyNumeric.divisors self cn))
                 approximated).
  { apply (system_dynamics_returns_unless
             A (DingModelFrequencyNumeric.set_is_approximated self true)).
    cbn. discriminate. }
  assert (He : Numeric.returns_unless
                 (existsb (Numeric.zero_divisor A)
                          (DingModelFrequencyNumeric.divisors self cn))
                 exact).
  { apply (system_dynamics_returns_unless
             A (DingModelFrequencyNumeric.set_is_approximated self false)).
    cbn. discriminate. }
  assert (Hzero :
            existsb (Numeric.zero_divisor A)
                    (DingModelFrequencyNumeric.divisors self cn) = true ->
            Exists (fun d => Numeric.zero_divisor A d = true)
                   (DingModelFrequencyNumeric.divisors self cn)).
  { intros E. apply existsb_exists in E. apply Exists_exists. exact E. }
  split; [| split; [| split]].
  - intros Hall. unfold DingModelFrequencyNumeric.divisors in Hall.
    inversion Hall as [| d1 l1 Htauc Hall1]; subst.
    inversion Hall1 as [| d2 l2 Hkm Hall2]; subst.
    inversion Hall2 as [| d3 l3 Htau1 _]; subst.
    assert (Hf : (forall mode,
                   DingModelFrequencyNumeric.f_dot_fun
                     (DingModelFrequencyNumeric.set_is_approximated self mode)
                     cn f
                     (DingModelFrequencyNumeric.a_rest self)
                     (DingModelFrequencyNumeric.tau1_rest self)
                     (DingModelFrequencyNumeric.km_rest self) fl fv
                   = Ok f_dot)).
    { intros mode. unfold DingModelFrequencyNumeric.f_dot_fun, Numeric.truediv.
      cbn [DingModelFrequencyNumeric.tau2
           DingModelFrequencyNumeric.set_is_approximated].
      rewrite Hkm. cbn [bind]. rewrite Htau1. reflexivity. }
    assert (Hc : forall mode s,
               DingModelFrequencyNumeric.cn_dot_fun
                 (DingModelFrequencyNumeric.set_is_approximated self mode)
                 cn s
               = Ok (DingModelFrequencyNumeric.cn_dot_value self cn s)).
    { intros mode s.
      unfold DingModelFrequencyNumeric.cn_dot_fun, Numeric.truediv.
      cbn [DingModelFrequencyNumeric.tauc
           DingModelFrequencyNumeric.set_is_approximated].
      rewrite Htauc. reflexivity. }
    split.
    + unfold approximated, DingModelFrequencyNumeric.system_dynamics,
        DingModelFrequencyNumeric.calculate_cn_dot.
      cbn [DingModelFrequencyNumeric.is_approximated
           DingModelFrequencyNumeric.set_is_approximated].
      rewrite Hc. cbn [bind].
      change (DingModelFrequencyNumeric.a_rest
                (DingModelFrequencyNumeric.set_is_approximated self true))
        with (DingModelFrequencyNumeric.a_rest self).
      change (DingModelFrequencyNumeric.tau1_rest
                (DingModelFrequencyNumeric.set_is_approximated self true))
        with (DingModelFrequencyNumeric.tau1_rest self).
      change (DingModelFrequencyNumeric.km_rest
                (DingModelFrequencyNumeric.set_is_approximated self true))
        with (DingModelFrequencyNumeric.km_rest self).
      rewrite Hf. reflexivity.
    + pose proof (cn_sum_fun_returns_unless
                    A (DingModelFrequencyNumeric.set_is_approximated
                         self false)
                    (DingModelFrequencyNumeric.get_r0
                       (DingModelFrequencyNumeric.set_is_approximated
                          self false)
                       (DingModelFrequencyNumeric.km_rest
                          (DingModelFrequencyNumeric.set_is_approximated
                             self false)))
                    t t_stim_prev (Numeric.of_int A 1)) as Hsum.
      change (DingModelFrequencyNumeric.tauc
                (DingModelFrequencyNumeric.set_is_approximated self false))
        with (DingModelFrequencyNumeric.tauc self) in Hsum.
      rewrite Htauc in Hsum.
      destruct Hsum as [[exact_sum Hsum] | [Hcontra _]]; [| discriminate].
      exists exact_sum.
      unfold exact, DingModelFrequencyNumeric.system_dynamics,
        DingModelFrequencyNumeric.calculate_cn_dot.
      cbn [DingModelFrequencyNumeric.is_approximated
           DingModelFrequencyNumeric.set_is_approximated].
      rewrite Hsum. cbn [bind]. rewrite Hc. cbn [bind].
      change (DingModelFrequencyNumeric.a_rest
                (DingModelFrequencyNumeric.set_is_approximated self false))
        with (DingModelFrequencyNumeric.a_rest self).
      change (DingModelFrequencyNumeric.tau1_rest
                (DingModelFrequencyNumeric.set_is_approximated self false))
        with (DingModelFrequencyNumeric.tau1_rest self).
      change (DingModelFrequencyNumeric.km_rest
                (DingModelFrequencyNumeric.set_is_approximated self false))
        with (DingModelFrequencyNumeric.km_rest self).
      rewrite Hf. reflexivity.
  - intros e [H | H].
    + destruct Ha as [[v Hv] | [Hz Hr]]; [congruence |].
      split; [congruence | apply Hzero; exact Hz].
    + destruct He as [[v Hv] | [Hz Hr]]; [congruence |].
      split; [congruence | apply Hzero; exact Hz].
  - destruct Ha as [[v Hv] | [_ Hr]]; congruence.
  - destruct He as [[v Hv] | [_ Hr]]; congruence.
Qed.

(** On Python floats, with the constants of [__init__] and the state
    [Cn = NaN]: no divisor is zero, and the call returns. *)
Lemma system_dynamics_validates_nothing_witness :
  let self := DingModelFrequencyNumeric.init None false in
  exists exact_sum,
    DingModelFrequencyNumeric.system_dynamics
      (DingModelFrequencyNumeric.set_is_approximated self false)
      Numeric.NaN (Numeric.Finite 0) (Numeric.Finite 0)
      (Some [Numeric.Finite 0]) None (Numeric.Finite 1) (Numeric.Finite 1)
    = Ok (DingModelFrequencyNumeric.cn_dot_value self Numeric.NaN exact_sum,
          DingModelFrequencyNumeric.f_dot_value
            self Numeric.NaN (Numeric.Finite 0)
            (Numeric.Finite 1) (Numeric.Finite 1)).
Proof.
  intros self.
  refine (proj2 (proj1 (system_dynamics_validates_nothing
                          Numeric.python_floats self
                          Numeric.NaN (Numeric.Finite 0) (Numeric.Finite 0)
                          (Numeric.Finite 1) (Numeric.Finite 1)
                          (Numeric.Finite 0) [Numeric.Finite 0] None None)
                       _)).
  repeat constructor. cbn. unfold Numeric.is_zero.
  destruct (Req_EM_T (20 / 1000) 0) as [E | _]; [lra | reflexivity].
Defined.

(** C7 (as stated) fails, on Python floats with the constants of
    [__init__].  In approximated mode with [cn_sum = 0] the state
    [Cn = NaN] gives the derivative [(NaN, NaN)] and the state
    [Cn = inf] gives [(-inf, NaN)]; with the time constant
    [tauc = -0.02], the rest state and no stimulation give [(0, 0)] in
    exact mode.  None of the three calls raises. *)
Lemma system_dynamics_nan_inf_negative_tauc :
  let approximated := DingModelFrequencyNumeric.init None true in
  let negative :=
    DingModelFrequencyNumeric.set_tauc
      (DingModelFrequencyNumeric.init None false)
      (Numeric.Finite (- (20 / 1000))) in
  DingModelFrequencyNumeric.system_dynamics
    approximated Numeric.NaN (Numeric.Finite 0) (Numeric.Finite 0)
    None (Some (Numeric.Finite 0)) (Numeric.Finite 1) (Numeric.Finite 1)
  = Ok (Numeric.NaN, Numeric.NaN)
  /\ DingModelFrequencyNumeric.system_dynamics
       approximated (Numeric.Infinity false) (Numeric.Finite 0)
       (Numeric.Finite 0)
       None (Some (Numeric.Finite 0)) (Numeric.Finite 1) (Numeric.Finite 1)
     = Ok (Numeric.Infinity true, Numeric.NaN)
  /\ (exists v, DingModelFrequencyNumeric.tauc negative = Numeric.Finite v
                /\ (v < 0)%R)
  /\ DingModelFrequencyNumeric.system_dynamics
       negative (Numeric.Finite 0) (Numeric.Finite 0) (Numeric.Finite 0)
       (Some []) None (Numeric.Finite 1) (Numeric.Finite 1)
     = Ok (Numeric.Finite 0, Numeric.Finite 0).
Proof.
  intros approximated negative.
  assert (Htauc : Numeric.is_zero (20 / 1000) = false).
  { unfold Numeric.is_zero.
    destruct (Req_EM_T (20 / 1000) 0) as [E | _]; [lra | reflexivity]. }
  assert (Hneg : Numeric.is_zero (- (20 / 1000)) = false).
  { unfold Numeric.is_zero.
    destruct (Req_EM_T (- (20 / 1000)) 0) as [E | _]; [lra | reflexivity]. }
  assert (Hpos : Numeric.is_negative (20 / 1000) = false).
  { unfold Numeric.is_negative.
    destruct (Rlt_dec (20 / 1000) 0) as [E | _]; [lra | reflexivity]. }
  assert (Hkm : Numeric.is_zero (103 / 1000 + 0) = false).
  { unfold Numeric.is_zero.
    destruct (Req_EM_T (103 / 1000 + 0) 0) as [E | _]; [lra | reflexivity]. }
  split; [| split; [| split]].
  - unfold DingModelFrequencyNumeric.system_dynamics,
      DingModelFrequencyNumeric.calculate_cn_dot,
      DingModelFrequencyNumeric.cn_dot_fun,
      DingModelFrequencyNumeric.f_dot_fun, Numeric.truediv.
    cbn. rewrite Htauc. cbn. reflexivity.
  - unfold DingModelFrequencyNumeric.system_dynamics,
      DingModelFrequencyNumeric.calculate_cn_dot,
      DingModelFrequencyNumeric.cn_dot_fun,
      DingModelFrequencyNumeric.f_dot_fun, Numeric.truediv.
    cbn. rewrite Htauc. cbn. rewrite Hpos. cbn. reflexivity.
  - exists (- (20 / 1000))%R. split; [reflexivity | lra].
  - unfold DingModelFrequencyNumeric.system_dynamics,
      DingModelFrequencyNumeric.calculate_cn_dot,
      DingModelFrequencyNumeric.cn_dot_fun,
      DingModelFrequencyNumeric.f_dot_fun, Numeric.truediv.
    cbn. rewrite Hneg. cbn. rewrite Hkm. cbn.
    assert (Hden : Numeric.is_zero
                     (50957 / 1000000 + 60 / 1000 * (0 / (103 / 1000 + 0)))
                   = false).
    { unfold Numeric.is_zero.
      destruct (Req_EM_T
                  (50957 / 1000000 + 60 / 1000 * (0 / (103 / 1000 + 0))) 0)
        as [E | _]; [| reflexivity].
      unfold Rdiv in E. rewrite Rmult_0_l in E. lra. }
    rewrite Hden. cbn. do 2 f_equal; f_equal; unfold Rdiv; ring.
Qed.

(** C10.  For an empty stimulation history [cn_sum_fun] returns 0 and
    raises nothing, so that [calculate_cn_dot] in exact mode returns
    the decay [- Cn / tauc]; for a non-empty history the gap computed
    at the first event is read, without raising, from the last element
    of the list, and it does not affect the result: any other value in
    its place gives the same sum. *)
Theorem cn_sum_fun_empty_and_first_gap
        (self : DingModelFrequency.model) (r0 cn t : R)
        (lambda_i : list R) (unused_cn_sum : option R) :
  DingModelFrequency.cn_sum_fun self r0 t [] lambda_i = Ok 0%R
  /\ DingModelFrequency.calculate_cn_dot
       (DingModelFrequency.set_is_approximated self false)
       cn unused_cn_sum t (Some [])
     = Ok (- cn / DingModelFrequency.tauc self)%R
  /\ (forall t_stim_prev : list R,
         t_stim_prev <> [] ->
         DingModelFrequency.previous_phase_time t_stim_prev 0
         = Ok (nth 0 t_stim_prev 0 - last t_stim_prev 0)%R)
  /\ (forall (t_stim_prev : list R) (gap : Z -> result R),
         t_stim_prev <> [] ->
         (exists v, gap 0%Z = Ok v) ->
         (forall i, i <> 0%Z ->
                    gap i
                    = DingModelFrequency.previous_phase_time t_stim_prev i) ->
         DingModelFrequency.cn_sum_loop self gap r0 t t_stim_prev lambda_i
         = DingModelFrequency.cn_sum_fun self r0 t t_stim_prev lambda_i).
Proof.
  split; [| split; [| split]].
  - reflexivity.
  - unfold DingModelFrequency.calculate_cn_dot.
    cbn [DingModelFrequency.is_approximated
         DingModelFrequency.set_is_approximated].
    change (DingModelFrequency.cn_sum_fun _ _ t [] _) with (Ok 0%R).
    cbn [bind]. f_equal.
    unfold DingModelFrequency.cn_dot_fun.
    cbn [DingModelFrequency.tauc DingModelFrequency.set_is_approximated].
    unfold Rdiv. ring.
  - apply previous_phase_time_first.
  - intros t_stim_prev gap Hne [v Hv] Hgap.
    unfold DingModelFrequency.cn_sum_fun, DingModelFrequency.cn_sum_loop.
    apply for_each_ext. intros acc i _.
    unfold DingModelFrequency.cn_sum_body.
    destruct (Z.eqb_spec i 0) as [-> | Hi].
    + rewrite Hv, (previous_phase_time_first _ Hne). reflexivity.
    + rewrite (Hgap i Hi). reflexivity.
Qed.

Lemma cn_sum_fun_empty_and_first_gap_witness :
  let self := DingModelFrequency.init None false in
  DingModelFrequency.cn_sum_loop
    self
    (fun i => if (i =? 0)%Z then Ok 5%R
              else DingModelFrequency.previous_phase_time [0; 1]%R i)
    1 0 [0; 1]%R [1; 1]%R
  = DingModelFrequency.cn_sum_fun self 1 0 [0; 1]%R [1; 1]%R.
Proof.
  intros self.
  refine (proj2 (proj2 (proj2
            (cn_sum_fun_empty_and_first_gap self 1 0 0 [1; 1]%R None)))
            [0; 1]%R _ _ _ _).
  - discriminate.
  - exists 5%R. reflexivity.
  - intros i Hi. destruct (Z.eqb_spec i 0) as [E | _]; [contradiction |].
    reflexivity.
Defined.

(** ** Ranges *)

Lemma range_empty (a b : Z) : (b <= a)%Z -> range a b = [].
Proof.
  intros H. unfold range. replace (Z.to_nat (b - a)) with 0%nat by lia.
  reflexivity.
Qed.

Lemma range_snoc (a b : Z) :
  (a <= b)%Z -> range a (b + 1) = range a b ++ [b].
Proof.
  intros H. unfold range.
  replace (Z.to_nat (b + 1 - a)) with (S (Z.to_nat (b - a))) by lia.
  rewrite seq_S, map_app. cbn [map Nat.add]. do 2 f_equal. lia.
Qed.

Lemma range_length (a b : Z) : length (range a b) = Z.to_nat (b - a).
Proof. unfold range. rewrite length_map, length_seq. reflexivity. Qed.

Lemma range_nth_error (a b : Z) (k : nat) :
  (Z.of_nat k < b - a)%Z ->
  nth_error (range a b) k = Some (a + Z.of_nat k)%Z.
Proof.
  intros H. unfold range.
  rewrite nth_error_map, nth_error_seq.
  destruct (Nat.ltb_spec k (Z.to_nat (b - a))); [reflexivity | lia].
Qed.

Lemma range_last (a b dflt : Z) :
  (a < b)%Z -> last (range a b) dflt = (b - 1)%Z.
Proof.
  intros H. replace b with (b - 1 + 1)%Z at 1 by lia.
  rewrite range_snoc by lia. apply last_last.
Qed.

Lemma map_seq_from {A : Type} (f : nat -> A) (n m : nat) :
  map f (seq n m) = map (fun k => f (n + k)%nat) (seq 0 m).
Proof.
  revert n f. induction m as [| m IH]; intros n f; [reflexivity |].
  cbn [seq map]. rewrite Nat.add_0_r. f_equal.
  rewrite (IH (S n)), (IH 1%nat).
  apply map_ext. intros k. f_equal. lia.
Qed.

Lemma range_split (a b c : Z) :
  (a <= b <= c)%Z -> range a c = range a b ++ range b c.
Proof.
  intros H. unfold range.
  replace (Z.to_nat (c - a)) with (Z.to_nat (b - a) + Z.to_nat (c - b))%nat
    by lia.
  rewrite seq_app, map_app. f_equal.
  rewrite map_seq_from. apply map_ext. intros k. lia.
Qed.

(** ** The windows of [_build_constraints] *)

Section WindowFacts.

Import OcpFesId.
Open Scope Z_scope.

Variable stim_at_node : list Z.
Variable max_stim_to_keep : Z.

Let step := window_step stim_at_node max_stim_to_keep.

Lemma window_step_sup (w : window) (i : Z) :
  index_sup (step w i)
  = index_sup w + (if existsb (Z.eqb i) stim_at_node then 1 else 0).
Proof.
  unfold step, window_step.
  destruct (existsb (Z.eqb i) stim_at_node); cbn [index_sup]; lia.
Qed.

Lemma window_fold_sup_le (nodes : list Z) (w : window) :
  index_sup w <= index_sup (fold_left step nodes w).
Proof.
  revert w. induction nodes as [| i nodes IH]; intros w; cbn [fold_left].
  - lia.
  - specialize (IH (step w i)). rewrite window_step_sup in IH.
    destruct (existsb (Z.eqb i) stim_at_node); lia.
Qed.

(** [index_sup] never decreases from a node to a later one. *)
Lemma window_at_sup_monotone (i j : Z) :
  i <= j ->
  index_sup (window_at stim_at_node max_stim_to_keep i)
  <= index_sup (window_at stim_at_node max_stim_to_keep j).
Proof.
  intros Hij. unfold window_at.
  destruct (Z.le_gt_cases 0 (i + 1)) as [Hi | Hi].
  - rewrite (range_split 0 (i + 1) (j + 1)) by lia.
    rewrite fold_left_app. apply window_fold_sup_le.
  - rewrite (range_empty 0 (i + 1)) by lia. cbn [fold_left].
    apply (window_fold_sup_le _ window_init).
Qed.

(** The window kept for a bound of at least one stimulation. *)
Lemma window_fold_inv (nodes : list Z) (w : window) :
  1 <= max_stim_to_keep ->
  window_inv max_stim_to_keep w ->
  window_inv max_stim_to_keep (fold_left step nodes w).
Proof.
  intros HK. revert w.
  induction nodes as [| i nodes IH]; intros w Hw; cbn [fold_left];
    [exact Hw |].
  apply IH. destruct Hw as [Hsup Hinf Hidx].
  unfold step, window_step.
  destruct (existsb (Z.eqb i) stim_at_node); [| constructor; assumption].
  constructor; cbn [index_sup index_inf stim_index].
  - lia.
  - destruct (Z.leb_spec max_stim_to_keep (index_sup w + 1)); lia.
  - reflexivity.
Qed.

(** For a bound below one the list of indices stays empty. *)
Lemma window_fold_empty (nodes : list Z) (w : window) :
  max_stim_to_keep < 1 ->
  0 <= index_sup w <= index_inf w -> stim_index w = [] ->
  stim_index (fold_left step nodes w) = [].
Proof.
  intros HK. revert w.
  induction nodes as [| i nodes IH]; intros w Hw Hidx; cbn [fold_left];
    [exact Hidx |].
  unfold step at 2, window_step.
  destruct (existsb (Z.eqb i) stim_at_node); [| apply IH; assumption].
  destruct (Z.leb_spec max_stim_to_keep (index_sup w + 1)); [| lia].
  apply IH; cbn [index_sup index_inf stim_index].
  - lia.
  - apply range_empty. lia.
Qed.

Lemma window_inv_last (w : window) :
  1 <= max_stim_to_keep ->
  window_inv max_stim_to_keep w ->
  last_stim (stim_index w) = index_sup w - 1.
Proof.
  intros HK [Hsup Hinf Hidx]. unfold last_stim. rewrite Hidx.
  destruct (Z.eq_dec (index_sup w) 0) as [E | NE].
  - rewrite range_empty by lia. cbn [last]. lia.
  - apply range_last. lia.
Qed.

(** The constraint added at a node carries the window of that node. *)
Lemma cn_sum_constraints_nth (stim_time : list Q) (nodes : list Z) :
  forall (w : window) (k : nat) (i : Z),
    nth_error nodes k = Some i ->
    nth_error (cn_sum_constraints stim_time stim_at_node max_stim_to_keep
                                  w nodes) k
    = Some (let w' := fold_left step (firstn (S k) nodes) w in
            cn_sum_identification
              i (slice stim_time (index_inf w') (index_sup w'))
              (stim_index w')).
Proof.
  induction nodes as [| x nodes IH]; intros w k i Hk.
  - destruct k; discriminate.
  - destruct k as [| k].
    + cbn in Hk. injection Hk as ->. reflexivity.
    + cbn [nth_error] in Hk. cbn [cn_sum_constraints nth_error].
      rewrite (IH _ k i Hk). reflexivity.
Qed.

Lemma cn_sum_constraints_length (stim_time : list Q) (nodes : list Z)
      (w : window) :
  length (cn_sum_constraints stim_time stim_at_node max_stim_to_keep w nodes)
  = length nodes.
Proof.
  revert w. induction nodes as [| x nodes IH]; intros w; cbn;
    [reflexivity | rewrite IH; reflexivity].
Qed.

Lemma cn_sum_constraints_range (stim_time : list Q) (m : Z) (k : nat) :
  Z.of_nat k < m ->
  nth_error (cn_sum_constraints stim_time stim_at_node max_stim_to_keep
                                window_init (range 0 m)) k
  = Some (let w := window_at stim_at_node max_stim_to_keep (Z.of_nat k) in
          cn_sum_identification
            (Z.of_nat k) (slice stim_time (index_inf w) (index_sup w))
            (stim_index w)).
Proof.
  intros Hk.
  rewrite (cn_sum_constraints_nth stim_time (range 0 m) window_init k
                                  (Z.of_nat k)).
  - unfold window_at.
    replace (firstn (S k) (range 0 m)) with (range 0 (Z.of_nat k + 1));
      [reflexivity |].
    rewrite (range_split 0 (Z.of_nat k + 1) m) by lia.
    rewrite firstn_app.
    rewrite range_length.
    replace (S k - Z.to_nat (Z.of_nat k + 1 - 0))%nat with 0%nat by lia.
    rewrite firstn_O, app_nil_r.
    rewrite firstn_all2; [reflexivity |].
    rewrite range_length. lia.
  - rewrite range_nth_error by lia. f_equal.
Qed.

End WindowFacts.

Section BuildFacts.

Import OcpFesId.
Open Scope Z_scope.

Lemma a_calculation_constraints_shape (san : list Z) (nodes : list Z) :
  forall (sup : Z) (c : Constraint),
    In c (a_calculation_constraints san sup nodes) ->
    exists node last_stim_index,
      c = a_calculation_identification node last_stim_index.
Proof.
  induction nodes as [| i nodes IH]; intros sup c Hin; cbn in Hin.
  - contradiction.
  - destruct Hin as [<- | Hin]; [eauto | eapply IH; exact Hin].
Qed.

(** What a returning call has built. *)
Lemma build_constraints_inv (model : DingModelFrequency.model) (pw : bool)
      (N : Z) (T : Q) (stim : list Q) (ct : ControlType)
      (cs : list Constraint) :
  _build_constraints model pw N T stim ct = Ok cs ->
  exists san,
    stim_at_node N T stim = Ok san
    /\ cs = cn_sum_constraints stim san (max_stim_to_keep_of model)
                               window_init
                               (range 0 (N + additional_nodes ct))
            ++ (if pw
                then a_calculation_constraints
                       san 0 (range 0 (N + additional_nodes ct))
                else []).
Proof.
  unfold _build_constraints. intros H.
  apply bind_inv_Ok in H. destruct H as (san & Hsan & H).
  exists san. split; [exact Hsan |].
  destruct pw; injection H as <-; [reflexivity |].
  symmetry. apply app_nil_r.
Qed.

(** A [cn_sum_identification] constraint found at position [k] is the
    one of node [k], with the window of that node. *)
Lemma build_constraints_nth (model : DingModelFrequency.model) (pw : bool)
      (N : Z) (stim : list Q) (ct : ControlType)
      (san : list Z) (k : nat) (node : Z) (st : list Q) (si : list Z) :
  nth_error
    (cn_sum_constraints stim san (max_stim_to_keep_of model) window_init
                        (range 0 (N + additional_nodes ct))
     ++ (if pw
         then a_calculation_constraints
                san 0 (range 0 (N + additional_nodes ct))
         else [])) k
  = Some (cn_sum_identification node st si) ->
  Z.of_nat k < N + additional_nodes ct
  /\ cn_sum_identification node st si
     = constraint_of stim (Z.of_nat k)
                     (window_at san (max_stim_to_keep_of model)
                                (Z.of_nat k)).
Proof.
  intros H.
  set (M := N + additional_nodes ct) in *.
  set (W := max_stim_to_keep_of model) in *.
  destruct (Z.lt_ge_cases (Z.of_nat k) M) as [Hk | Hk].
  - split; [exact Hk |].
    rewrite nth_error_app1 in H
      by (rewrite cn_sum_constraints_length, range_length; lia).
    rewrite cn_sum_constraints_range in H by exact Hk.
    injection H as <- <- <-. reflexivity.
  - exfalso.
    rewrite nth_error_app2 in H
      by (rewrite cn_sum_constraints_length, range_length; lia).
    apply nth_error_In in H. destruct pw; [| contradiction].
    apply a_calculation_constraints_shape in H.
    destruct H as (n' & l' & H). discriminate.
Qed.

Lemma window_init_inv (W : Z) : 1 <= W -> window_inv W window_init.
Proof.
  intros HW.
  constructor; cbn [window_init index_sup index_inf stim_index].
  - lia.
  - lia.
  - reflexivity.
Qed.

Lemma window_at_last (san : list Z) (W i j : Z) :
  i <= j ->
  last_stim (stim_index (window_at san W i))
  <= last_stim (stim_index (window_at san W j)).
Proof.
  intros Hij. destruct (Z.le_gt_cases 1 W) as [HW | HW].
  - assert (Hinv : forall k, window_inv W (window_at san W k)).
    { intros k. unfold window_at. apply window_fold_inv.
      - exact HW.
      - apply window_init_inv. exact HW. }
    rewrite (window_inv_last W (window_at san W i) HW (Hinv i)).
    rewrite (window_inv_last W (window_at san W j) HW (Hinv j)).
    pose proof (window_at_sup_monotone san W i j Hij). lia.
  - unfold window_at.
    rewrite !window_fold_empty
      by (try reflexivity; try lia;
          cbn [window_init index_sup index_inf]; lia).
    lia.
Qed.

End BuildFacts.

(** C9.  Whenever [_build_constraints] returns, its node-to-stimulus
    mapping is monotonic: the upper window bound [index_sup] of the
    loop never decreases from a node to a later one, the constraint of
    each node carries the window of that node, and of two
    [cn_sum_identification] constraints the later one ends at a
    stimulation index at least as large. *)
Theorem node_to_stimulus_mapping_monotone
        (model : DingModelFrequency.model) (pulse_width_model : bool)
        (n_shooting : Z) (final_time : Q) (stim_time : list Q)
        (control_type : OcpFesId.ControlType)
        (constraints : list OcpFesId.Constraint) :
  OcpFesId._build_constraints model pulse_width_model n_shooting final_time
                              stim_time control_type
  = Ok constraints ->
  OcpFesId.mapping_monotone constraints
  /\ exists stim_at_node,
      OcpFesId.stim_at_node n_shooting final_time stim_time = Ok stim_at_node
      /\ (forall i j : Z,
             (i <= j)%Z ->
             (OcpFesId.index_sup
                (OcpFesId.window_at
                   stim_at_node (OcpFesId.max_stim_to_keep_of model) i)
              <= OcpFesId.index_sup
                   (OcpFesId.window_at
                      stim_at_node (OcpFesId.max_stim_to_keep_of model) j))%Z)
      /\ (forall k : nat,
             (Z.of_nat k
              < n_shooting + OcpFesId.additional_nodes control_type)%Z ->
             nth_error constraints k
             = Some (OcpFesId.constraint_of
                       stim_time (Z.of_nat k)
                       (OcpFesId.window_at
                          stim_at_node (OcpFesId.max_stim_to_keep_of model)
                          (Z.of_nat k)))).
Proof.
  intros H. apply build_constraints_inv in H.
  destruct H as (san & Hsan & ->). split.
  - intros i j ni nj sti stj si sj Hij Hi Hj.
    apply build_constraints_nth in Hi. destruct Hi as [_ Hi].
    apply build_constraints_nth in Hj. destruct Hj as [_ Hj].
    unfold OcpFesId.constraint_of in Hi, Hj.
    injection Hi as _ _ ->. injection Hj as _ _ ->.
    apply window_at_last. lia.
  - exists san. split; [exact Hsan |]. split.
    + intros i j Hij. apply window_at_sup_monotone. exact Hij.
    + intros k Hk.
      rewrite nth_error_app1
        by (rewrite cn_sum_constraints_length, range_length; lia).
      apply cn_sum_constraints_range. exact Hk.
Qed.

(** Four stimulations on the four nodes of a horizon of one second,
    two of them kept. *)
Lemma node_to_stimulus_mapping_monotone_witness :
  OcpFesId.mapping_monotone
    [OcpFesId.cn_sum_identification 0 [0]%Q [0]%Z;
     OcpFesId.cn_sum_identification 1 [0; 1 # 4]%Q [0; 1]%Z;
     OcpFesId.cn_sum_identification 2 [1 # 4; 1 # 2]%Q [1; 2]%Z;
     OcpFesId.cn_sum_identification 3 [1 # 2; 3 # 4]%Q [2; 3]%Z].
Proof.
  refine (proj1 (node_to_stimulus_mapping_monotone
                   (DingModelFrequency.init (Some 2%Z) true) false
                   4 1 [0; 1 # 4; 1 # 2; 3 # 4]%Q OcpFesId.CONSTANT _ _)).
  vm_compute. reflexivity.
Defined.

(** ** Counting the stimulations at or before a node *)

Section CountFacts.

Import OcpFesId.
Open Scope Z_scope.

Lemma assigned_up_to_step (san : list Z) (n : Z) :
  NoDup san ->
  assigned_up_to san n
  = assigned_up_to san (n - 1)
    + (if existsb (Z.eqb n) san then 1 else 0).
Proof.
  unfold assigned_up_to.
  induction 1 as [| x san Hx Hnd IH]; [reflexivity |].
  cbn [filter existsb].
  assert (Htail : x = n -> existsb (Z.eqb n) san = false).
  { intros ->. apply not_true_is_false. intros E.
    apply existsb_exists in E. destruct E as (y & Hy & Ey).
    apply Z.eqb_eq in Ey. subst y. contradiction. }
  destruct (Z.leb_spec x n), (Z.leb_spec x (n - 1)), (Z.eqb_spec n x);
    try lia; cbn [length orb];
    try (rewrite Htail in * by lia); lia.
Qed.

Lemma assigned_before_zero (san : list Z) (n : Z) :
  Forall (fun k => 0 <= k) san -> n < 0 -> assigned_up_to san n = 0.
Proof.
  unfold assigned_up_to. intros Hall Hn.
  induction Hall as [| x san Hx _ IH]; [reflexivity |].
  cbn [filter]. destruct (Z.leb_spec x n); [lia | exact IH].
Qed.

(** [index_sup] at a node counts the stimulations assigned so far, as
    long as no two of them are assigned to the same node. *)
Lemma window_at_sup_count (san : list Z) (W : Z) :
  NoDup san -> Forall (fun k => 0 <= k) san ->
  forall n : nat,
    index_sup (window_at san W (Z.of_nat n - 1))
    = assigned_up_to san (Z.of_nat n - 1).
Proof.
  intros Hnd Hpos. induction n as [| n IH].
  - unfold window_at. rewrite range_empty by lia. cbn [fold_left].
    rewrite assigned_before_zero by (try assumption; lia). reflexivity.
  - unfold window_at in *.
    replace (Z.of_nat (S n) - 1 + 1) with (Z.of_nat n - 1 + 1 + 1) by lia.
    rewrite range_snoc by lia.
    rewrite fold_left_app. cbn [fold_left].
    rewrite window_step_sup, IH.
    rewrite (assigned_up_to_step san (Z.of_nat (S n) - 1) Hnd).
    replace (Z.of_nat (S n) - 1 - 1) with (Z.of_nat n - 1) by lia.
    replace (Z.of_nat n - 1 + 1) with (Z.of_nat (S n) - 1) by lia.
    reflexivity.
Qed.

Lemma first_where_spec (cond : list bool) :
  forall k0 k : Z,
    first_where cond k0 = Ok k ->
    k0 <= k
    /\ nth_error cond (Z.to_nat (k - k0)) = Some true
    /\ (forall j : nat, (j < Z.to_nat (k - k0))%nat ->
                        nth_error cond j = Some false).
Proof.
  induction cond as [| b cond IH]; intros k0 k H; cbn in H; [discriminate |].
  destruct b.
  - injection H as <-. rewrite Z.sub_diag. cbn.
    repeat split; [lia | intros j Hj; lia].
  - apply IH in H. destruct H as (Hk & Htrue & Hfalse).
    replace (Z.to_nat (k - k0)) with (S (Z.to_nat (k - (k0 + 1)))) by lia.
    repeat split; [lia | exact Htrue |].
    intros [| j] Hj; [reflexivity |].
    cbn [nth_error]. apply Hfalse. lia.
Qed.


(** In a time vector that never decreases, a later sample is at least
    an earlier one. *)
Lemma sorted_nth (tv : list Q) :
  StronglySorted Qle tv ->
  forall i j : nat,
    (i <= j < length tv)%nat -> (nth i tv 0 <= nth j tv 0)%Q.
Proof.
  induction 1 as [| x tv Hss IH Hall]; intros i j Hij; cbn in Hij; [lia |].
  destruct i as [| i], j as [| j]; cbn [nth]; try lia.
  - apply Qle_refl.
  - rewrite Forall_forall in Hall. apply Hall. apply nth_In. lia.
  - apply IH. lia.
Qed.

(** The node a stimulation is assigned to is at or before node [i]
    exactly when the stimulation is at or before the time of node [i]. *)
Lemma first_where_le_iff (tv : list Q) (s : Q) (k : Z) (i : nat) :
  StronglySorted Qle tv ->
  first_where (map (fun t => Qle_bool s t) tv) 0 = Ok k ->
  (i < length tv)%nat ->
  (k <=? Z.of_nat i) = Qle_bool s (nth i tv 0%Q).
Proof.
  intros Hsorted Hk Hi.
  apply first_where_spec in Hk. destruct Hk as (Hk0 & Htrue & Hfalse).
  rewrite Z.sub_0_r in *.
  assert (Hlen : (Z.to_nat k < length tv)%nat).
  { assert (Hsome : nth_error (map (fun t => Qle_bool s t) tv) (Z.to_nat k)
                    <> None) by congruence.
    apply nth_error_Some in Hsome. rewrite length_map in Hsome. exact Hsome. }
  destruct (Z.leb_spec k (Z.of_nat i)) as [Hle | Hgt]; symmetry.
  - apply Qle_bool_iff.
    rewrite nth_error_map, (nth_error_nth' tv 0%Q Hlen) in Htrue.
    cbn [option_map] in Htrue. injection Htrue as Htrue.
    apply Qle_bool_iff in Htrue.
    eapply Qle_trans; [exact Htrue |].
    apply sorted_nth; [exact Hsorted | lia].
  - specialize (Hfalse i ltac:(lia)).
    rewrite nth_error_map, (nth_error_nth' tv 0%Q Hi) in Hfalse.
    cbn [option_map] in Hfalse. injection Hfalse as Hfalse. exact Hfalse.
Qed.

Lemma stim_at_node_of_count (tv : list Q) (i : nat) :
  StronglySorted Qle tv ->
  (i < length tv)%nat ->
  forall (stim : list Q) (san : list Z),
    stim_at_node_of stim tv = Ok san ->
    Forall (fun k => 0 <= k) san
    /\ assigned_up_to san (Z.of_nat i)
       = events_at_or_before stim (nth i tv 0%Q).
Proof.
  intros Hsorted Hi. unfold assigned_up_to, events_at_or_before.
  induction stim as [| s stim IH]; intros san H; cbn in H.
  - injection H as <-. split; [constructor | reflexivity].
  - apply bind_inv_Ok in H. destruct H as (k & Hk & H).
    apply bind_inv_Ok in H. destruct H as (ks & Hks & H).
    injection H as <-.
    destruct (IH ks Hks) as [Hpos Hcount].
    split.
    + constructor; [| exact Hpos].
      apply first_where_spec in Hk. lia.
    + cbn [filter].
      rewrite (first_where_le_iff tv s k i Hsorted Hk Hi).
      destruct (Qle_bool s (nth i tv 0%Q)); cbn [length]; lia.
Qed.

(** In a sorted list the events at or before a time are a prefix. *)
Lemma sorted_events_prefix (stim : list Q) (x : Q) :
  StronglySorted Qle stim ->
  forall j : nat,
    (j < length stim)%nat ->
    (nth j stim 0 <= x)%Q <-> Z.of_nat j < events_at_or_before stim x.
Proof.
  unfold events_at_or_before.
  induction 1 as [| s stim Hss IH Hall]; intros j Hj; cbn in Hj; [lia |].
  cbn [filter]. destruct (Qle_bool s x) eqn:E.
  - destruct j as [| j]; cbn [nth length].
    + apply Qle_bool_iff in E. split; [lia | intros _; exact E].
    + rewrite (IH j) by lia. lia.
  - assert (Hs : ~ (s <= x)%Q)
      by (intros Hc; apply Qle_bool_iff in Hc; congruence).
    assert (Hnone : forall y, In y stim -> ~ (y <= x)%Q).
    { intros y Hy Hc. apply Hs.
      eapply Qle_trans; [| exact Hc].
      rewrite Forall_forall in Hall. apply Hall. exact Hy. }
    assert (Hempty : filter (fun s0 => Qle_bool s0 x) stim = []).
    { clear -Hnone. induction stim as [| y stim IHs]; [reflexivity |].
      cbn [filter]. destruct (Qle_bool y x) eqn:Ey.
      - exfalso. apply (Hnone y); [left; reflexivity |].
        apply Qle_bool_iff. exact Ey.
      - apply IHs. intros z Hz. apply Hnone. right. exact Hz. }
    rewrite Hempty. cbn [length].
    split; [| lia]. intros Hc. exfalso.
    destruct j as [| j]; cbn [nth] in Hc; [exact (Hs Hc) |].
    apply (Hnone (nth j stim 0%Q)); [| exact Hc].
    apply nth_In. lia.
Qed.

End CountFacts.

(** C8 (the code at a failing input).  The 7 Hz train
    [[k / 7 for k in range(7)]] on the horizon 1.0 is sorted and gets
    7 nodes from [prepare_n_shooting].  In binary64 the time of node 5,
    [5 * (1 / 7)], is below the float [5 / 7], so that the stimulations
    5 and 6 are both assigned to node 6, and the loop counts them once.
    At node 6 all seven stimulations lie at or before the node; with no
    truncation the list of active indices is [0 .. 5] instead of
    [0 .. 6], and with [K = 3] it is [3, 4, 5], not the three most
    recent [4, 5, 6]. *)
Theorem active_stimulation_window_7hz_train :
  let stim_time := OcpFesId.train_7hz in
  let untruncated := DingModelFrequency.init None false in
  let truncated := DingModelFrequency.init (Some 3%Z) false in
  let node_5 := (3216856876693211 # 4503599627370496)%Q in
  let node_6 := (7720456504063707 # 9007199254740992)%Q in
  stim_time = map (fun k => Binary64.round (inject_Z k / 7)) (range 0 7)
  /\ StronglySorted Qlt stim_time
  /\ OcpFes.prepare_n_shooting stim_time 1 = Ok 7%Z
  /\ Numpy.linspace 0 1 (7 + 1)
     = Ok [0; nth 1 stim_time 0; nth 2 stim_time 0; nth 3 stim_time 0;
           nth 4 stim_time 0; node_5; node_6; 1]%Q
  /\ (node_5 < nth 5 stim_time 0)%Q
  /\ OcpFesId.stim_at_node_np 7 1 stim_time = Ok [0; 1; 2; 3; 4; 6; 6]%Z
  /\ OcpFesId.events_at_or_before stim_time node_6 = 7%Z
  /\ (exists constraints,
         OcpFesId._build_constraints_np untruncated false 7 1 stim_time
                                        OcpFesId.CONSTANT
         = Ok constraints
         /\ nth_error constraints 6
            = Some (OcpFesId.cn_sum_identification
                      6 (firstn 6 stim_time) [0; 1; 2; 3; 4; 5]%Z))
  /\ (exists constraints,
         OcpFesId._build_constraints_np truncated false 7 1 stim_time
                                        OcpFesId.CONSTANT
         = Ok constraints
         /\ nth_error constraints 6
            = Some (OcpFesId.cn_sum_identification
                      6 (firstn 3 (skipn 3 stim_time)) [3; 4; 5]%Z)).
Proof.
  intros stim_time untruncated truncated node_5 node_6.
  repeat split; try (vm_compute; reflexivity).
  - repeat constructor.
  - eexists. split; vm_compute; reflexivity.
  - eexists. split; vm_compute; reflexivity.
Qed.

(** ** The builder on a given time vector *)

Section TimeVectorFacts.

Import OcpFesId.
Open Scope Z_scope.

(** numpy returns as many samples as asked for. *)
Lemma np_linspace_length (start stop : Q) (num : Z) (tv : list Q) :
  Numpy.linspace start stop num = Ok tv -> length tv = Z.to_nat num.
Proof.
  unfold Numpy.linspace. destruct (Z.ltb_spec num 0); [discriminate |].
  intros Htv. injection Htv as <-.
  match goal with
  | |- context [map ?f (range 0 num)] => set (y := map f (range 0 num))
  end.
  assert (Hy : length y = Z.to_nat num).
  { unfold y. rewrite length_map, range_length. f_equal. lia. }
  destruct (Z.ltb_spec 1 num); [| exact Hy].
  assert (Hne : y <> []).
  { intros E. rewrite E in Hy. cbn in Hy. lia. }
  rewrite length_app. cbn [length].
  rewrite (app_removelast_last 0%Q Hne) in Hy at 1.
  rewrite length_app in Hy. cbn [length] in Hy. lia.
Qed.

(** The windows of the first loop when every stimulation has a node of
    its own, on a time vector that never decreases. *)
Lemma build_constraints_on_windows
      (time_vector : list Q)
      (model : DingModelFrequency.model) (pulse_width_model : bool)
      (n_shooting : Z) (stim_time : list Q) (control_type : ControlType)
      (san : list Z) (K : Z) :
  max_stim_to_keep_of model = K ->
  1 <= K ->
  StronglySorted Qle time_vector ->
  n_shooting + additional_nodes control_type
  <= Z.of_nat (length time_vector) ->
  Sorted Qle stim_time ->
  stim_at_node_of stim_time time_vector = Ok san ->
  NoDup san ->
  exists constraints,
    _build_constraints_on time_vector model pulse_width_model
                          n_shooting stim_time control_type
    = Ok constraints
    /\ forall i : Z,
      0 <= i < n_shooting + additional_nodes control_type ->
      let c :=
        events_at_or_before stim_time (nth (Z.to_nat i) time_vector 0%Q) in
      let k := Z.min K c in
      nth_error constraints (Z.to_nat i)
      = Some (cn_sum_identification
                i (slice stim_time (c - k) c) (range (c - k) c))
      /\ Z.of_nat (length (range (c - k) c)) = k
      /\ (forall j : nat,
             (j < length stim_time)%nat ->
             (nth j stim_time 0 <= nth (Z.to_nat i) time_vector 0)%Q
             <-> Z.of_nat j < c).
Proof.
  intros HK HK1 Htv Hlen Hsorted Hsan Hnd.
  unfold _build_constraints_on. rewrite Hsan. cbn [bind].
  exists (cn_sum_constraints
            stim_time san (max_stim_to_keep_of model) window_init
            (range 0 (n_shooting + additional_nodes control_type))
          ++ (if pulse_width_model
              then a_calculation_constraints
                     san 0
                     (range 0 (n_shooting + additional_nodes control_type))
              else [])).
  split.
  { destruct pulse_width_model; [reflexivity |].
    rewrite app_nil_r. reflexivity. }
  intros i Hi.
  set (c := events_at_or_before
              stim_time (nth (Z.to_nat i) time_vector 0%Q)).
  set (k := Z.min K c).
  destruct (stim_at_node_of_count time_vector (Z.to_nat i) Htv ltac:(lia)
                                  stim_time san Hsan)
    as [Hpos Hcount].
  rewrite Z2Nat.id in Hcount by lia.
  fold c in Hcount.
  pose proof (window_at_sup_count san K Hnd Hpos (Z.to_nat (i + 1))) as Hsup.
  replace (Z.of_nat (Z.to_nat (i + 1)) - 1) with i in Hsup by lia.
  rewrite Hcount in Hsup.
  assert (Hinv : window_inv K (window_at san K i)).
  { unfold window_at. apply window_fold_inv; [exact HK1 |].
    apply window_init_inv. exact HK1. }
  destruct Hinv as [Hs0 Hinf Hidx].
  rewrite Hsup in Hinf, Hidx, Hs0. rewrite Hinf in Hidx. fold k in Hinf, Hidx.
  split; [| split].
  - rewrite nth_error_app1
      by (rewrite cn_sum_constraints_length, range_length; lia).
    rewrite cn_sum_constraints_range by lia.
    rewrite Z2Nat.id by lia. rewrite HK.
    cbv zeta. rewrite Hidx, Hinf, Hsup. reflexivity.
  - rewrite range_length. lia.
  - intros j Hj. apply sorted_events_prefix; [| exact Hj].
    apply Sorted_StronglySorted; [| exact Hsorted].
    intros x y z. apply Qle_trans.
Qed.

End TimeVectorFacts.

(** The constraint builder is right as long as every stimulation has a
    node of its own.  Let the time vector numpy computes never decrease,
    the bound [K] of kept stimulations be at least 1, the stimulation
    times be sorted and no two stimulations be assigned to the same
    node.  Then the builder returns, and for every node [i] it visits
    the list of active stimulation indices holds exactly [min(K, c)]
    indices, [c] being the number of stimulation events at or before
    the time of node [i]: the consecutive indices
    [c - min(K, c), ..., c - 1], the events at or before the node being
    exactly those of index below [c]. *)
Theorem active_window_on_distinct_nodes
        (model : DingModelFrequency.model) (pulse_width_model : bool)
        (n_shooting : Z) (final_time : Q) (stim_time : list Q)
        (control_type : OcpFesId.ControlType)
        (time_vector : list Q) (stim_at_node : list Z) (K : Z) :
  OcpFesId.max_stim_to_keep_of model = K ->
  (1 <= K)%Z ->
  Numpy.linspace 0 final_time (n_shooting + 1) = Ok time_vector ->
  StronglySorted Qle time_vector ->
  Sorted Qle stim_time ->
  OcpFesId.stim_at_node_np n_shooting final_time stim_time
  = Ok stim_at_node ->
  NoDup stim_at_node ->
  exists constraints,
    OcpFesId._build_constraints_np model pulse_width_model n_shooting
                                   final_time stim_time control_type
    = Ok constraints
    /\ forall i : Z,
      (0 <= i < n_shooting + OcpFesId.additional_nodes control_type)%Z ->
      let c :=
        OcpFesId.events_at_or_before
          stim_time (nth (Z.to_nat i) time_vector 0%Q) in
      let k := Z.min K c in
      nth_error constraints (Z.to_nat i)
      = Some (OcpFesId.cn_sum_identification
                i (slice stim_time (c - k) c) (range (c - k) c))
      /\ Z.of_nat (length (range (c - k) c)) = k
      /\ (forall j : nat,
             (j < length stim_time)%nat ->
             (nth j stim_time 0 <= nth (Z.to_nat i) time_vector 0)%Q
             <-> (Z.of_nat j < c)%Z).
Proof.
  intros HK HK1 Hnp Htv Hsorted Hsan Hnd.
  unfold OcpFesId._build_constraints_np. rewrite Hnp. cbn [bind].
  unfold OcpFesId.stim_at_node_np in Hsan. rewrite Hnp in Hsan.
  cbn [bind] in Hsan.
  apply (build_constraints_on_windows
           time_vector model pulse_width_model n_shooting stim_time
           control_type stim_at_node K HK HK1 Htv);
    try assumption.
  rewrite (np_linspace_length _ _ _ _ Hnp).
  assert (Hnum : (0 <= n_shooting + 1)%Z).
  { unfold Numpy.linspace in Hnp.
    destruct (Z.ltb_spec (n_shooting + 1) 0); [discriminate | assumption]. }
  destruct control_type; cbn [OcpFesId.additional_nodes]; lia.
Qed.

(** Four stimulations on the four nodes of a horizon of one second,
    two of them kept: node 2 holds the indices 1 and 2. *)
Lemma active_window_on_distinct_nodes_witness :
  exists constraints,
    OcpFesId._build_constraints_np
      (DingModelFrequency.init (Some 2%Z) true) false 4 1
      [0; 1 # 4; 1 # 2; 3 # 4]%Q OcpFesId.CONSTANT
    = Ok constraints
    /\ nth_error constraints 2
       = Some (OcpFesId.cn_sum_identification
                 2 [1 # 4; 1 # 2]%Q [1; 2]%Z).
Proof.
  destruct (active_window_on_distinct_nodes
              (DingModelFrequency.init (Some 2%Z) true) false 4 1
              [0; 1 # 4; 1 # 2; 3 # 4]%Q OcpFesId.CONSTANT
              [0; 1 # 4; 1 # 2; 3 # 4; 1]%Q [0; 1; 2; 3]%Z 2%Z)
    as (constraints & Hbuild & Hnodes).
  - reflexivity.
  - lia.
  - vm_compute. reflexivity.
  - repeat constructor; discriminate.
  - repeat constructor; discriminate.
  - vm_compute. reflexivity.
  - repeat constructor; cbn; intuition lia.
  - exists constraints. split; [exact Hbuild |].
    exact (proj1 (Hnodes 2%Z ltac:(cbn; lia))).
Defined.

(* ================================================================= *)
(** * Further properties of the scheduler *)

Section ConversionFacts.

Import Fractions OcpFes.
Open Scope Z_scope.

Lemma Qred_idempotent (q : Q) : Qred (Qred q) = Qred q.
Proof. apply Qred_complete, Qred_correct. Qed.

(** Bringing a fraction to lowest terms divides its denominator. *)
Lemma Qred_den_divides (q : Q) :
  (Zpos (Qden (Qred q)) | Zpos (Qden q)).
Proof.
  pose proof (Qred_correct q) as Heq. unfold Qeq in Heq.
  pose proof (gcd_Qred q) as Hg.
  apply (Z.gauss _ (Qnum (Qred q))).
  - exists (Qnum q). rewrite Heq. ring.
  - rewrite Z.gcd_comm. exact Hg.
Qed.

Lemma Qred_den_le (q : Q) : Zpos (Qden (Qred q)) <= Zpos (Qden q).
Proof. apply Z.divide_pos_le; [lia | apply Qred_den_divides]. Qed.

(** A fraction whose denominator is within the bound is returned as
    it is. *)
Lemma to_fraction_exact (x : Q) :
  Zpos (Qden (Qred x)) <= 1000000 -> to_fraction x = Ok (Qred x).
Proof.
  intros Hx. unfold to_fraction, limit_denominator.
  destruct (Z.ltb_spec 1000000 1); [lia |].
  unfold denominator, of_number.
  destruct (Z.leb_spec (Zpos (Qden (Qred x))) 1000000); [| lia].
  rewrite Qred_idempotent. reflexivity.
Qed.

Lemma limit_denominator_bounded (x : Q) (M : Z) (y : Fraction) :
  1 <= M ->
  limit_denominator (of_number x) M = Ok y ->
  denominator y <= M /\ Qred y = y.
Proof.
  intros HM. unfold limit_denominator.
  destruct (Z.ltb_spec M 1); [lia |].
  destruct (Z.leb_spec (denominator (of_number x)) M) as [Hsmall | Hbig].
  - intros Hy. injection Hy as <-. unfold of_number in *.
    rewrite !Qred_idempotent. split; [exact Hsmall | reflexivity].
  - set (num := numerator (of_number x)).
    set (den := denominator (of_number x)) in *.
    assert (Hden : 0 < den) by (unfold den, denominator; lia).
    destruct (cf_loop_returns den M HM Hbig (cf_fuel num den)
                              (mk_cf 0 1 1 0 num den))
      as (s & Hs & Hq1 & Hq0 & Hq1M).
    { constructor; cbn [n d p0 q0 p1 q1]; try lia.
      unfold num, den, numerator, denominator, of_number.
      apply gcd_Qred. }
    { apply cf_fuel_enough; exact Hden. }
    rewrite Hs. cbn [bind]. unfold floordiv.
    destruct (Z.eqb_spec (q1 s) 0); [lia |]. cbn [bind].
    assert (Hk : 0 <= (M - q0 s) / q1 s) by (apply Z.div_pos; lia).
    assert (Hkq : (M - q0 s) / q1 s * q1 s <= M - q0 s)
      by (rewrite Z.mul_comm; apply Z.mul_div_le; lia).
    assert (Hb1 : 0 < q0 s + (M - q0 s) / q1 s * q1 s).
    { destruct (Z.eq_dec (q0 s) 0) as [H0 | ?]; [| nia].
      rewrite H0, Z.sub_0_r.
      assert (1 <= M / q1 s) by (apply Z.div_le_lower_bound; lia).
      nia. }
    rewrite (make_pos _ _ Hb1). cbn [bind].
    rewrite (make_pos _ _ Hq1). cbn [bind].
    assert (Hmk : forall a b : Z,
               0 < b <= M ->
               denominator (Qred (a # Z.to_pos b)) <= M
               /\ Qred (Qred (a # Z.to_pos b)) = Qred (a # Z.to_pos b)).
    { intros a b Hb. split; [| apply Qred_idempotent].
      unfold denominator.
      eapply Z.le_trans; [apply Qred_den_le |].
      change (Zpos (Qden (a # Z.to_pos b))) with (Zpos (Z.to_pos b)).
      rewrite Z2Pos.id by lia. lia. }
    pose proof (Hmk (p0 s + (M - q0 s) / q1 s * p1 s)
                    (q0 s + (M - q0 s) / q1 s * q1 s) ltac:(lia)) as Hbound1.
    pose proof (Hmk (p1 s) (q1 s) ltac:(lia)) as Hbound2.
    revert Hbound1 Hbound2.
    generalize (Qred (p0 s + (M - q0 s) / q1 s * p1 s
                      # Z.to_pos (q0 s + (M - q0 s) / q1 s * q1 s))).
    generalize (Qred (p1 s # Z.to_pos (q1 s))).
    intros b2 b1 Hbound1 Hbound2.
    destruct (Qle_bool _ _); intros Hy; injection Hy as <-; assumption.
Qed.

Lemma as_fraction_bounded (x : Q) :
  denominator (as_fraction x) <= 1000000
  /\ Qred (as_fraction x) = as_fraction x.
Proof.
  apply (limit_denominator_bounded x 1000000); [lia |].
  apply to_fraction_returns.
Qed.

Lemma as_fraction_exact (x : Q) :
  Zpos (Qden (Qred x)) <= 1000000 -> as_fraction x = Qred x.
Proof.
  intros Hx. unfold as_fraction. rewrite (to_fraction_exact x Hx).
  reflexivity.
Qed.

End ConversionFacts.

(** [Fraction(x).limit_denominator()] always returns a fraction in
    lowest terms whose denominator is at most 1000000, and converting
    that fraction again gives it back. *)
Theorem to_fraction_bounded_idempotent (x : Q) :
  exists y : Fractions.Fraction,
    OcpFes.to_fraction x = Ok y
    /\ (Fractions.denominator y <= 1000000)%Z
    /\ Z.gcd (Fractions.numerator y) (Fractions.denominator y) = 1%Z
    /\ OcpFes.to_fraction y = Ok y.
Proof.
  exists (OcpFes.as_fraction x).
  destruct (as_fraction_bounded x) as [Hden Hred].
  split; [apply to_fraction_returns |].
  split; [exact Hden |].
  split.
  - rewrite <- Hred. apply gcd_Qred.
  - rewrite to_fraction_exact; rewrite Hred; [reflexivity | exact Hden].
Qed.

Section SchedulerFacts.

Import Fractions OcpFes.
Open Scope Z_scope.

Lemma Qred_den_coprime (q : Q) :
  Z.gcd (Qnum q) (Zpos (Qden q)) = 1 ->
  Zpos (Qden (Qred q)) = Zpos (Qden q).
Proof.
  intros Hg.
  apply Z.divide_antisym_nonneg; try lia.
  - apply Qred_den_divides.
  - pose proof (Qred_correct q) as Heq. unfold Qeq in Heq.
    apply (Z.gauss _ (Qnum q)).
    + exists (Qnum (Qred q)). rewrite <- Heq. ring.
    + rewrite Z.gcd_comm. exact Hg.
Qed.



Lemma Q_steps_quotient (k T m : Q) :
  ~ (T == 0)%Q -> ~ (m == 0)%Q -> (k * (T / m) / T == k / m)%Q.
Proof. intros HT Hm. field. split; assumption. Qed.

Lemma as_fraction_zero_num (T : Q) :
  (as_fraction T == 0)%Q -> numerator (as_fraction T) = 0.
Proof.
  unfold Qeq, numerator. cbn [Qnum Qden]. lia.
Qed.

(** With a horizon converted to zero the first division raises. *)
Lemma prepare_n_shooting_zero_horizon (t : Q) (stim : list Q) (T : Q) :
  (as_fraction T == 0)%Q ->
  prepare_n_shooting (t :: stim) T = Raise ZeroDivisionError.
Proof.
  intros HT. unfold prepare_n_shooting.
  rewrite to_fraction_returns. cbn [bind for_each].
  unfold n_shooting_step. rewrite to_fraction_returns. cbn [bind].
  unfold div. rewrite (as_fraction_zero_num T HT).
  unfold make. rewrite Z.mul_0_r. reflexivity.
Qed.

Lemma lcm_of_denominators_pos (stim : list Q) (T : Q) :
  0 < lcm_of_denominators stim T.
Proof. apply fold_right_lcm_pos, denominators_pos. Qed.

(** What a returned node count is. *)
Lemma prepare_n_shooting_Ok_inv (stim : list Q) (T : Q) (n : Z) :
  prepare_n_shooting stim T = Ok n ->
  n = lcm_of_denominators stim T
  /\ (stim = [] \/ ~ (as_fraction T == 0)%Q).
Proof.
  intros H. destruct (Qeq_dec (as_fraction T) 0) as [HT | HT].
  - destruct stim as [| t stim].
    + unfold prepare_n_shooting in H. rewrite to_fraction_returns in H.
      cbn in H. injection H as <-. split; [reflexivity | left; reflexivity].
    + rewrite (prepare_n_shooting_zero_horizon t stim T HT) in H.
      discriminate.
  - rewrite (prepare_n_shooting_returns stim T HT) in H.
    injection H as <-. split; [reflexivity | right; exact HT].
Qed.

Lemma lcm_of_denominators_app (s1 s2 : list Q) (T : Q) :
  lcm_of_denominators (s1 ++ s2) T
  = Z.lcm (lcm_of_denominators s1 T) (lcm_of_denominators s2 T).
Proof.
  unfold lcm_of_denominators. rewrite map_app.
  induction (map (reduced_denominator T) s1) as [| x ds IH];
    cbn [app fold_right].
  - symmetry. apply Z.lcm_1_l_nonneg.
    apply Z.lt_le_incl, fold_right_lcm_pos, denominators_pos.
  - rewrite IH. apply Z.lcm_assoc.
Qed.

Lemma reduced_denominator_divides (stim : list Q) (T t : Q) :
  In t stim -> (reduced_denominator T t | lcm_of_denominators stim T).
Proof.
  intros Hin. unfold lcm_of_denominators.
  pose proof (fold_right_lcm_multiple (map (reduced_denominator T) stim))
    as Hall.
  rewrite Forall_forall in Hall. apply Hall.
  apply in_map. exact Hin.
Qed.


Lemma divides_of_on_grid (T t : Q) (m k : Z) :
  ~ (as_fraction T == 0)%Q -> 0 < m ->
  (as_fraction t == inject_Z k * (as_fraction T / inject_Z m))%Q ->
  (reduced_denominator T t | m).
Proof.
  intros HT Hm Ht. unfold reduced_denominator.
  assert (Hm0 : ~ (inject_Z m == 0)%Q).
  { change 0%Q with (inject_Z 0). rewrite inject_Z_injective. lia. }
  assert (Hx : (as_fraction t / as_fraction T == k # Z.to_pos m)%Q).
  { rewrite (Qmake_Qdiv k (Z.to_pos m)), Z2Pos.id by lia.
    rewrite Ht. apply Q_steps_quotient; assumption. }
  rewrite (Qred_complete _ _ Hx).
  pose proof (Qred_den_divides (k # Z.to_pos m)) as Hdiv.
  cbn [Qden] in Hdiv. rewrite Z2Pos.id in Hdiv by lia. exact Hdiv.
Qed.

End SchedulerFacts.




(** The returned node count is the least one: any positive number of
    equal steps that puts every converted stimulation time on a node is
    a multiple of it. *)
Theorem node_count_minimal (stim_time : list Q) (final_time : Q)
        (n m : Z) :
  OcpFes.prepare_n_shooting stim_time final_time = Ok n ->
  (0 < m)%Z ->
  (forall t, In t stim_time ->
             exists k : Z,
               (OcpFes.as_fraction t
                == inject_Z k
                   * (OcpFes.as_fraction final_time / inject_Z m))%Q) ->
  (n | m)%Z /\ (n <= m)%Z.
Proof.
  intros H Hm Hgrid. apply prepare_n_shooting_Ok_inv in H.
  destruct H as [-> Hcase].
  assert (Hdiv : (OcpFes.lcm_of_denominators stim_time final_time | m)%Z).
  { destruct Hcase as [-> | HT]; [apply Z.divide_1_l |].
    unfold OcpFes.lcm_of_denominators. apply fold_right_lcm_least.
    apply Forall_forall. intros dv Hdv.
    apply in_map_iff in Hdv. destruct Hdv as (t & <- & Hin).
    destruct (Hgrid t Hin) as [k Hk].
    apply (divides_of_on_grid final_time t m k HT Hm Hk). }
  split; [exact Hdiv | apply Z.divide_pos_le; assumption].
Qed.

Lemma node_count_minimal_witness : (2 | 4)%Z /\ (2 <= 4)%Z.
Proof.
  apply (node_count_minimal [0; 1 # 2]%Q 1 2 4).
  - vm_compute. reflexivity.
  - lia.
  - intros t [<- | [<- | []]].
    + exists 0%Z. vm_compute. reflexivity.
    + exists 2%Z. vm_compute. reflexivity.
Defined.

(** On finite stimulation times and a finite horizon
    [prepare_n_shooting] has two outcomes only: it raises
    [ZeroDivisionError] exactly when the horizon is converted to zero
    and there is a stimulation, and otherwise returns a node count of
    at least 1.  (A NaN or an infinity is refused by [Fraction(...)]
    with a [ValueError] or an [OverflowError]; they are not among the
    numbers of this embedding.) *)
Theorem prepare_n_shooting_outcome (stim_time : list Q) (final_time : Q) :
  ((OcpFes.as_fraction final_time == 0)%Q /\ stim_time <> []
   /\ OcpFes.prepare_n_shooting stim_time final_time
      = Raise ZeroDivisionError)
  \/ (~ ((OcpFes.as_fraction final_time == 0)%Q /\ stim_time <> [])
      /\ exists n : Z,
        OcpFes.prepare_n_shooting stim_time final_time = Ok n
        /\ (1 <= n)%Z).
Proof.
  destruct (Qeq_dec (OcpFes.as_fraction final_time) 0) as [HT | HT].
  - destruct stim_time as [| t stim].
    + right. split; [intros [_ Hne]; congruence |].
      exists 1%Z. split; [| lia].
      unfold OcpFes.prepare_n_shooting. rewrite to_fraction_returns.
      reflexivity.
    + left. split; [exact HT |]. split; [discriminate |].
      apply prepare_n_shooting_zero_horizon. exact HT.
  - right. split; [intros [Hz _]; contradiction |].
    exists (OcpFes.lcm_of_denominators stim_time final_time). split.
    + apply prepare_n_shooting_returns. exact HT.
    + pose proof (lcm_of_denominators_pos stim_time final_time). lia.
Qed.

(** Stimulation times can only refine the grid: the node count of a
    list divides the node count of any list that contains its times,
    so that order and repetitions of the times do not matter. *)
Theorem node_count_refines (s1 s2 : list Q) (final_time : Q) (n1 n2 : Z) :
  OcpFes.prepare_n_shooting s1 final_time = Ok n1 ->
  OcpFes.prepare_n_shooting s2 final_time = Ok n2 ->
  (incl s1 s2 -> (n1 | n2)%Z)
  /\ (incl s1 s2 -> incl s2 s1 -> n1 = n2).
Proof.
  intros H1 H2.
  apply prepare_n_shooting_Ok_inv in H1. destruct H1 as [-> _].
  apply prepare_n_shooting_Ok_inv in H2. destruct H2 as [-> _].
  assert (Hdiv : forall a b,
             incl a b ->
             (OcpFes.lcm_of_denominators a final_time
              | OcpFes.lcm_of_denominators b final_time)%Z).
  { intros a b Hincl. unfold OcpFes.lcm_of_denominators at 1.
    apply fold_right_lcm_least. apply Forall_forall. intros dv Hdv.
    apply in_map_iff in Hdv. destruct Hdv as (t & <- & Hin).
    apply reduced_denominator_divides. apply Hincl. exact Hin. }
  split; [apply Hdiv |].
  intros H12 H21.
  apply Z.divide_antisym_nonneg; auto;
    apply Z.lt_le_incl, lcm_of_denominators_pos.
Qed.

Lemma node_count_refines_witness : (2 | 4)%Z.
Proof.
  refine (proj1 (node_count_refines [1 # 2]%Q [0; 3 # 4; 1 # 2]%Q
                                    1 2 4 _ _) _).
  - vm_compute. reflexivity.
  - vm_compute. reflexivity.
  - intros t [<- | []]. right. right. left. reflexivity.
Defined.

(** The node count of two lists put together is the least common
    multiple of their node counts. *)
Theorem node_count_app (s1 s2 : list Q) (final_time : Q) (n1 n2 : Z) :
  OcpFes.prepare_n_shooting s1 final_time = Ok n1 ->
  OcpFes.prepare_n_shooting s2 final_time = Ok n2 ->
  OcpFes.prepare_n_shooting (s1 ++ s2) final_time = Ok (Z.lcm n1 n2).
Proof.
  intros H1 H2.
  apply prepare_n_shooting_Ok_inv in H1. destruct H1 as [-> C1].
  apply prepare_n_shooting_Ok_inv in H2. destruct H2 as [-> C2].
  rewrite <- lcm_of_denominators_app.
  destruct C1 as [-> | HT]; [destruct C2 as [-> | HT] |];
    try (apply prepare_n_shooting_returns; exact HT).
  unfold OcpFes.prepare_n_shooting. rewrite to_fraction_returns.
  reflexivity.
Qed.

Lemma node_count_app_witness :
  OcpFes.prepare_n_shooting ([0; 1 # 2] ++ [1 # 3])%Q 1
  = Ok (Z.lcm 2 3).
Proof.
  apply (node_count_app [0; 1 # 2]%Q [1 # 3]%Q 1 2 3);
    vm_compute; reflexivity.
Defined.

Lemma prepare_n_shooting_exact_aux (stim_time : list Q) (final_time : Q) :
  Forall (fun t => (Zpos (Qden (Qred t)) <= 1000000)%Z) stim_time ->
  (Zpos (Qden (Qred final_time)) <= 1000000)%Z ->
  ~ (final_time == 0)%Q ->
  OcpFes.prepare_n_shooting stim_time final_time
  = Ok (fold_right Z.lcm 1%Z
          (map (fun t => Zpos (Qden (Qred (t / final_time)))) stim_time)).
Proof.
  intros Hstim HT HT0.
  assert (HTf : OcpFes.as_fraction final_time = Qred final_time)
    by (apply as_fraction_exact; exact HT).
  rewrite prepare_n_shooting_returns
    by (rewrite HTf, Qred_correct; exact HT0).
  unfold OcpFes.lcm_of_denominators. do 2 f_equal.
  apply map_ext_in. intros t Hin.
  rewrite Forall_forall in Hstim.
  unfold OcpFes.reduced_denominator.
  rewrite HTf, (as_fraction_exact t (Hstim t Hin)).
  do 2 f_equal. apply Qred_complete.
  rewrite !Qred_correct. reflexivity.
Qed.

(** No approximation is made on inputs whose reduced denominators are
    at most 1000000 (integers, decimals of up to six digits): the node
    count is the least common multiple of the denominators of the exact
    quotients [t / final_time]. *)
Theorem prepare_n_shooting_exact (stim_time : list Q) (final_time : Q) :
  Forall (fun t => (Zpos (Qden (Qred t)) <= 1000000)%Z) stim_time ->
  (Zpos (Qden (Qred final_time)) <= 1000000)%Z ->
  ~ (final_time == 0)%Q ->
  OcpFes.prepare_n_shooting stim_time final_time
  = Ok (fold_right Z.lcm 1%Z
          (map (fun t => Zpos (Qden (Qred (t / final_time)))) stim_time)).
Proof. apply prepare_n_shooting_exact_aux. Qed.

Lemma prepare_n_shooting_exact_witness :
  OcpFes.prepare_n_shooting [1 # 10; 1 # 4]%Q 2
  = Ok (fold_right Z.lcm 1%Z
          (map (fun t => Zpos (Qden (Qred (t / 2)))) [1 # 10; 1 # 4]%Q)).
Proof.
  apply (prepare_n_shooting_exact [1 # 10; 1 # 4]%Q 2).
  - repeat constructor; vm_compute; discriminate.
  - vm_compute; discriminate.
  - discriminate.
Defined.

Section EvenSpacing.

Import OcpFes.
Open Scope Z_scope.

Variables f T : positive.

Lemma even_quotient (k : Z) :
  ((k # f) / inject_Z (Zpos T) == k # (f * T))%Q.
Proof.
  unfold Qeq, Qdiv, Qmult, Qinv, inject_Z. cbn [Qnum Qden]. lia.
Qed.

Lemma even_denominator_divides (k : Z) :
  (Zpos (Qden (Qred ((k # f) / inject_Z (Zpos T)))) | Zpos (f * T)).
Proof.
  rewrite (Qred_complete _ _ (even_quotient k)).
  apply (Qred_den_divides (k # (f * T))).
Qed.

Lemma even_denominator_one :
  Zpos (Qden (Qred ((1 # f) / inject_Z (Zpos T)))) = Zpos (f * T).
Proof.
  rewrite (Qred_complete _ _ (even_quotient 1)).
  apply (Qred_den_coprime (1 # (f * T))).
  cbn [Qnum Qden]. apply Z.gcd_1_l.
Qed.

End EvenSpacing.

(** A train at the whole frequency [f <= 1000000] over a whole number
    [T] of seconds, its times being exactly [0, 1/f, 2/f, ...] up to
    but not including [T], gets [f * T] nodes. *)
Theorem node_count_evenly_spaced (f T : positive) :
  (Zpos f <= 1000000)%Z ->
  OcpFes.prepare_n_shooting
    (map (fun k => k # f) (range 0 (Zpos f * Zpos T)))
    (inject_Z (Zpos T))
  = Ok (Zpos f * Zpos T)%Z.
Proof.
  intros Hf.
  rewrite prepare_n_shooting_exact_aux.
  - f_equal. rewrite map_map.
    set (ds := map _ _).
    assert (Hpos : Forall (fun dv => (0 < dv)%Z) ds).
    { apply Forall_forall. intros dv Hdv.
      apply in_map_iff in Hdv. destruct Hdv as (k & <- & _). lia. }
    apply Z.divide_antisym_nonneg.
    + apply Z.lt_le_incl, fold_right_lcm_pos, Hpos.
    + lia.
    + apply fold_right_lcm_least. apply Forall_forall. intros dv Hdv.
      apply in_map_iff in Hdv. destruct Hdv as (k & <- & _).
      apply even_denominator_divides.
    + destruct (Z.eq_dec (Zpos f * Zpos T) 1) as [E | NE].
      * rewrite E. apply Z.divide_1_l.
      * pose proof (fold_right_lcm_multiple ds) as Hall.
        rewrite Forall_forall in Hall.
        change (Zpos f * Zpos T)%Z with (Zpos (f * T)).
        rewrite <- (even_denominator_one f T).
        apply Hall. unfold ds.
        apply in_map_iff. exists 1%Z. split; [reflexivity |].
        unfold range. apply in_map_iff. exists 1%nat.
        split; [reflexivity |]. apply in_seq. lia.
  - apply Forall_forall. intros t Ht.
    apply in_map_iff in Ht. destruct Ht as (k & <- & _).
    eapply Z.le_trans; [apply Qred_den_le |]. exact Hf.
  - eapply Z.le_trans; [apply Qred_den_le |]. cbn [Qden inject_Z]. lia.
  - discriminate.
Qed.

Lemma node_count_evenly_spaced_witness :
  OcpFes.prepare_n_shooting
    (map (fun k => k # 10) (range 0 (10 * 2))) (inject_Z 2)
  = Ok (10 * 2)%Z.
Proof. apply (node_count_evenly_spaced 10 2). lia. Defined.

(* ================================================================= *)
(** * Further properties of the constraint builder *)

Section VisitedFacts.

Import OcpFesId.
Open Scope Z_scope.

Lemma range_NoDup (a b : Z) : NoDup (range a b).
Proof.
  unfold range. apply NoDup_map_NoDup_ForallPairs; [| apply seq_NoDup].
  intros x y _ _ H. lia.
Qed.

Lemma range_In (a b i : Z) : In i (range a b) <-> a <= i < b.
Proof.
  unfold range. rewrite in_map_iff. split.
  - intros (k & <- & Hk). apply in_seq in Hk. lia.
  - intros Hi. exists (Z.to_nat (i - a)). split; [lia |].
    apply in_seq. lia.
Qed.

(** [index_sup] after a run of nodes: one more for every node that has
    a stimulation assigned. *)
Lemma window_fold_sup (san : list Z) (W : Z) (nodes : list Z) (w : window) :
  index_sup (fold_left (window_step san W) nodes w)
  = index_sup w
    + Z.of_nat (length (filter (fun i => existsb (Z.eqb i) san) nodes)).
Proof.
  revert w. induction nodes as [| i nodes IH]; intros w;
    cbn [fold_left filter length].
  - lia.
  - rewrite IH, window_step_sup.
    destruct (existsb (Z.eqb i) san); cbn [length]; lia.
Qed.

Lemma filter_eq_NoDup (x : Z) (nodes : list Z) :
  NoDup nodes -> (length (filter (fun i => (i =? x)%Z) nodes) <= 1)%nat.
Proof.
  induction 1 as [| y nodes Hy Hnd IH]; cbn [filter length]; [lia |].
  destruct (Z.eqb_spec y x) as [-> | _]; [| exact IH].
  cbn [length].
  assert (Hnone : filter (fun i => i =? x) nodes = []).
  { clear -Hy. induction nodes as [| z nodes IHn]; [reflexivity |].
    cbn [filter]. destruct (Z.eqb_spec z x) as [-> | _].
    - exfalso. apply Hy. left. reflexivity.
    - apply IHn. intros Hin. apply Hy. right. exact Hin. }
  rewrite Hnone. cbn [length]. lia.
Qed.

(** No more nodes are visited with a stimulation than there are
    stimulations. *)
Lemma visited_le_length (san nodes : list Z) :
  NoDup nodes ->
  (length (filter (fun i => existsb (Z.eqb i) san) nodes)
   <= length san)%nat.
Proof.
  intros Hnd. induction san as [| x san IH]; cbn [existsb length].
  - induction nodes as [| i nodes IHn]; [cbn; lia |].
    cbn [filter]. apply IHn. inversion Hnd; assumption.
  - pose proof (filter_eq_NoDup x nodes Hnd) as Hx.
    assert (Hsplit :
              (length (filter (fun i => (i =? x)%Z || existsb (Z.eqb i) san)
                              nodes)
               <= length (filter (fun i => (i =? x)%Z) nodes)
                  + length (filter (fun i => existsb (Z.eqb i) san) nodes))%nat).
    { clear. induction nodes as [| i nodes IHn]; [cbn; lia |].
      cbn [filter].
      destruct (i =? x), (existsb (Z.eqb i) san); cbn [orb length]; lia. }
    lia.
Qed.

Lemma stim_at_node_of_length (stim tv : list Q) :
  forall san, stim_at_node_of stim tv = Ok san -> length san = length stim.
Proof.
  induction stim as [| s stim IH]; intros san H; cbn in H.
  - injection H as <-. reflexivity.
  - apply bind_inv_Ok in H. destruct H as (k & _ & H).
    apply bind_inv_Ok in H. destruct H as (ks & Hks & H).
    injection H as <-. cbn [length]. rewrite (IH ks Hks). reflexivity.
Qed.

Lemma stim_at_node_length (N : Z) (T : Q) (stim : list Q) (san : list Z) :
  stim_at_node N T stim = Ok san -> length san = length stim.
Proof.
  unfold stim_at_node. intros H.
  apply bind_inv_Ok in H. destruct H as (tv & _ & H).
  apply (stim_at_node_of_length stim tv san H).
Qed.

Lemma window_at_sup_le_length (san : list Z) (W i : Z) :
  0 <= index_sup (window_at san W i) <= Z.of_nat (length san).
Proof.
  unfold window_at. rewrite window_fold_sup. cbn [window_init index_sup].
  pose proof (visited_le_length san (range 0 (i + 1)) (range_NoDup _ _)).
  lia.
Qed.

(** A slice is the list of the elements at the indices of its range. *)
Lemma slice_as_map {A : Type} (l : list A) (a b : Z) (dflt : A) :
  0 <= a <= b -> b <= Z.of_nat (length l) ->
  slice l a b = map (fun j => nth (Z.to_nat j) l dflt) (range a b).
Proof.
  intros Hab Hb. unfold slice.
  apply (nth_ext _ _ dflt ((fun j => nth (Z.to_nat j) l dflt) 0)).
  - rewrite length_skipn, length_firstn, length_map, range_length. lia.
  - intros k Hk.
    rewrite length_skipn, length_firstn in Hk.
    rewrite nth_skipn, nth_firstn.
    destruct (Nat.ltb_spec (Z.to_nat a + k) (Z.to_nat b)); [| lia].
    rewrite (map_nth (fun j => nth (Z.to_nat j) l dflt) (range a b) 0 k).
    rewrite (nth_error_nth (range a b) k 0 (range_nth_error a b k ltac:(lia))).
    f_equal. lia.
Qed.

End VisitedFacts.

(** Whatever the stimulation list, a returned list of constraints is
    consistent at every node when at least one stimulation is kept:
    the [cn_sum_identification] constraint at position [k] is the one
    of node [k], it holds at most [max_stim_to_keep] indices, and the
    stimulation times it is given are exactly the times at those
    indices, in order. *)
Theorem window_bounded_and_consistent
        (model : DingModelFrequency.model) (pulse_width_model : bool)
        (n_shooting : Z) (final_time : Q) (stim_time : list Q)
        (control_type : OcpFesId.ControlType)
        (constraints : list OcpFesId.Constraint)
        (k : nat) (node : Z) (times : list Q) (indices : list Z) :
  OcpFesId._build_constraints model pulse_width_model n_shooting final_time
                              stim_time control_type
  = Ok constraints ->
  (1 <= OcpFesId.max_stim_to_keep_of model)%Z ->
  nth_error constraints k
  = Some (OcpFesId.cn_sum_identification node times indices) ->
  node = Z.of_nat k
  /\ (Z.of_nat (length indices) <= OcpFesId.max_stim_to_keep_of model)%Z
  /\ length times = length indices
  /\ times = map (fun j => nth (Z.to_nat j) stim_time 0%Q) indices.
Proof.
  intros H HK Hk. apply build_constraints_inv in H.
  destruct H as (san & Hsan & ->).
  apply build_constraints_nth in Hk. destruct Hk as [_ Hk].
  unfold OcpFesId.constraint_of in Hk. injection Hk as -> -> ->.
  set (W := OcpFesId.max_stim_to_keep_of model) in *.
  set (w := OcpFesId.window_at san W (Z.of_nat k)).
  assert (Hinv : OcpFesId.window_inv W w).
  { unfold w, OcpFesId.window_at. apply window_fold_inv; [exact HK |].
    apply window_init_inv. exact HK. }
  destruct Hinv as [Hs0 Hinf Hidx].
  pose proof (window_at_sup_le_length san W (Z.of_nat k)) as Hsup.
  fold w in Hsup. rewrite (stim_at_node_length _ _ _ _ Hsan) in Hsup.
  assert (Hslice : slice stim_time (OcpFesId.index_inf w)
                         (OcpFesId.index_sup w)
                   = map (fun j => nth (Z.to_nat j) stim_time 0%Q)
                         (OcpFesId.stim_index w)).
  { rewrite Hidx. apply slice_as_map; lia. }
  split; [reflexivity |]. split; [| split].
  - rewrite Hidx, range_length. lia.
  - rewrite Hslice, length_map. reflexivity.
  - exact Hslice.
Qed.

Lemma window_bounded_and_consistent_witness :
  2%Z = Z.of_nat 2
  /\ (Z.of_nat (length [1; 2]%Z)
      <= OcpFesId.max_stim_to_keep_of
           (DingModelFrequency.init (Some 2%Z) true))%Z
  /\ length [1 # 4; 1 # 2]%Q = length [1; 2]%Z
  /\ [1 # 4; 1 # 2]%Q
     = map (fun j => nth (Z.to_nat j) [0; 1 # 4; 1 # 2; 3 # 4]%Q 0%Q)
           [1; 2]%Z.
Proof.
  refine (window_bounded_and_consistent
            (DingModelFrequency.init (Some 2%Z) true) false 4 1
            [0; 1 # 4; 1 # 2; 3 # 4]%Q OcpFesId.CONSTANT _ 2 2
            [1 # 4; 1 # 2]%Q [1; 2]%Z _ _ _).
  - vm_compute. reflexivity.
  - vm_compute. discriminate.
  - reflexivity.
Defined.

Section HorizonFacts.

Import OcpFesId.
Open Scope Z_scope.








End HorizonFacts.



Section PulseWidthFacts.

Import OcpFesId.
Open Scope Z_scope.

Variable san : list Z.

Let counted (j : Z) : bool := existsb (Z.eqb j) san && negb (j =? 0).

Lemma a_calculation_constraints_nth (nodes : list Z) :
  forall (sup : Z) (k : nat) (i : Z),
    nth_error nodes k = Some i ->
    nth_error (a_calculation_constraints san sup nodes) k
    = Some (a_calculation_identification
              i (sup + Z.of_nat (length (filter counted
                                                (firstn (S k) nodes))))).
Proof.
  induction nodes as [| x nodes IH]; intros sup k i Hk.
  - destruct k; discriminate.
  - destruct k as [| k].
    + cbn in Hk. injection Hk as ->.
      cbn [a_calculation_constraints nth_error firstn filter].
      unfold counted. destruct (existsb (Z.eqb i) san && negb (i =? 0));
        cbn [length]; do 2 f_equal; lia.
    + cbn [nth_error] in Hk.
      cbn [a_calculation_constraints nth_error].
      rewrite (IH _ k i Hk). do 2 f_equal.
      change (firstn (S (S k)) (x :: nodes))
        with (x :: firstn (S k) nodes).
      cbn [filter].
      change (counted x) with (existsb (Z.eqb x) san && negb (x =? 0)).
      destruct (existsb (Z.eqb x) san && negb (x =? 0)); cbn [length]; lia.
Qed.

Lemma a_calculation_constraints_length (nodes : list Z) (sup : Z) :
  length (a_calculation_constraints san sup nodes) = length nodes.
Proof.
  revert sup. induction nodes as [| x nodes IH]; intros sup; cbn;
    [reflexivity | rewrite IH; reflexivity].
Qed.

Lemma firstn_range (m : Z) (k : nat) :
  Z.of_nat k < m -> firstn (S k) (range 0 m) = range 0 (Z.of_nat k + 1).
Proof.
  intros Hk.
  rewrite (range_split 0 (Z.of_nat k + 1) m) by lia.
  rewrite firstn_app, range_length.
  replace (S k - Z.to_nat (Z.of_nat k + 1 - 0))%nat with 0%nat by lia.
  rewrite firstn_O, app_nil_r.
  apply firstn_all2. rewrite range_length. lia.
Qed.

(** Node 0 is the only node the second loop does not count. *)
Lemma counted_without_node_zero (k : nat) :
  Z.of_nat (length (filter counted (range 0 (Z.of_nat k + 1))))
  = Z.of_nat (length (filter (fun j => existsb (Z.eqb j) san)
                             (range 0 (Z.of_nat k + 1))))
    - (if existsb (Z.eqb 0) san then 1 else 0).
Proof.
  rewrite (range_split 0 1 (Z.of_nat k + 1)) by lia.
  rewrite !filter_app, !length_app.
  change (range 0 1) with [0]. cbn [filter]. unfold counted at 1.
  change (0 =? 0) with true. rewrite andb_false_r.
  assert (Htail : filter counted (range 1 (Z.of_nat k + 1))
                  = filter (fun j => existsb (Z.eqb j) san)
                           (range 1 (Z.of_nat k + 1))).
  { apply filter_ext_in. intros j Hj. apply range_In in Hj.
    unfold counted. destruct (Z.eqb_spec j 0); [lia |].
    apply andb_true_r. }
  rewrite Htail.
  destruct (existsb (Z.eqb 0) san); cbn [length]; lia.
Qed.

End PulseWidthFacts.

(** A returned list holds one [cn_sum_identification] constraint per
    visited node and, for the pulse-width model, as many
    [a_calculation_identification] constraints after them; the
    [last_stim_index] of node [k] is the upper window bound [index_sup]
    of that node, less one when a stimulation is assigned to node 0. *)
Theorem pulse_width_constraints_layout
        (model : DingModelFrequency.model) (pulse_width_model : bool)
        (n_shooting : Z) (final_time : Q) (stim_time : list Q)
        (control_type : OcpFesId.ControlType)
        (constraints : list OcpFesId.Constraint) :
  OcpFesId._build_constraints model pulse_width_model n_shooting final_time
                              stim_time control_type
  = Ok constraints ->
  let nodes := (n_shooting + OcpFesId.additional_nodes control_type)%Z in
  Z.of_nat (length constraints)
  = ((if pulse_width_model then 2 else 1) * Z.max 0 nodes)%Z
  /\ exists stim_at_node,
      OcpFesId.stim_at_node n_shooting final_time stim_time = Ok stim_at_node
      /\ (pulse_width_model = true ->
          forall k : nat,
            (Z.of_nat k < nodes)%Z ->
            nth_error constraints (Z.to_nat nodes + k)
            = Some (OcpFesId.a_calculation_identification
                      (Z.of_nat k)
                      (OcpFesId.index_sup
                         (OcpFesId.window_at
                            stim_at_node
                            (OcpFesId.max_stim_to_keep_of model)
                            (Z.of_nat k))
                       - (if existsb (Z.eqb 0) stim_at_node
                          then 1 else 0))%Z)).
Proof.
  intros H nodes. apply build_constraints_inv in H.
  destruct H as (san & Hsan & ->). fold nodes. split.
  - rewrite length_app, cn_sum_constraints_length, range_length.
    destruct pulse_width_model.
    + rewrite a_calculation_constraints_length, range_length. lia.
    + cbn [length]. lia.
  - exists san. split; [exact Hsan |].
    intros -> k Hk.
    rewrite nth_error_app2
      by (rewrite cn_sum_constraints_length, range_length; lia).
    rewrite cn_sum_constraints_length, range_length.
    replace (Z.to_nat nodes + k - Z.to_nat (nodes - 0))%nat with k by lia.
    rewrite (a_calculation_constraints_nth san (range 0 nodes) 0 k
                                           (Z.of_nat k))
      by (rewrite range_nth_error by lia; f_equal).
    rewrite firstn_range by exact Hk.
    rewrite counted_without_node_zero.
    unfold OcpFesId.window_at. rewrite window_fold_sup.
    cbn [OcpFesId.window_init OcpFesId.index_sup].
    do 2 f_equal.
Qed.

Lemma pulse_width_constraints_layout_witness :
  exists constraints,
    OcpFesId._build_constraints
      (DingModelFrequency.init (Some 2%Z) true) true 2 1 [0; 1 # 2]%Q
      OcpFesId.CONSTANT
    = Ok constraints
    /\ Z.of_nat (length constraints) = 4%Z.
Proof.
  eexists. split; [vm_compute; reflexivity |].
  refine (proj1 (pulse_width_constraints_layout
                   (DingModelFrequency.init (Some 2%Z) true) true 2 1
                   [0; 1 # 2]%Q OcpFesId.CONSTANT _ _)).
  vm_compute. reflexivity.
Defined.

(* ================================================================= *)
(** * Further properties of the Ding 2003 model *)

Section ForcingFacts.

Import DingModelFrequency.
Open Scope R_scope.

Variables (tau_c R0 t : R).

Lemma Cn_sum_spec_app (approximated : bool) (l1 l2 : list R) :
  forall previous : option R,
    Cn_sum_spec approximated tau_c R0 t previous (l1 ++ l2)
    = Cn_sum_spec approximated tau_c R0 t previous l1
      + Cn_sum_spec approximated tau_c R0 t
                    (match l1 with
                     | [] => previous
                     | _ :: _ => Some (last l1 0)
                     end) l2.
Proof.
  induction l1 as [| x l1 IH]; intros previous.
  - cbn [app Cn_sum_spec]. ring.
  - cbn [app Cn_sum_spec]. rewrite IH.
    destruct l1 as [| y l1]; cbn [last]; ring.
Qed.

(** Events after [t] add nothing in exact mode. *)
Lemma Cn_sum_spec_future (l : list R) :
  Forall (fun s => t < s) l ->
  forall previous, Cn_sum_spec false tau_c R0 t previous l = 0.
Proof.
  induction 1 as [| s l Hs _ IH]; intros previous; cbn [Cn_sum_spec];
    [reflexivity |].
  rewrite IH. unfold indicator_spec.
  destruct (Rle_dec s t); [lra | ring].
Qed.

End ForcingFacts.

(** In exact mode, stimulations scheduled after the current time do
    not act: with or without them at the end of the history the
    calcium derivative is the same.  The time constant is positive and
    the history sorted; the stimulations left out are at most 700 time
    constants ahead and [R0] is within 10000 of 1, so that no
    exponential and no product of the sum leaves the range of the
    floats. *)
Theorem future_stimulations_do_not_act
        (self : DingModelFrequency.model) (cn t : R)
        (history later : list R) (unused_cn_sum : option R) :
  let r0 :=
    DingModelFrequency.get_r0 self (DingModelFrequency.km_rest self) in
  (0 < DingModelFrequency.tauc self)%R ->
  (- 10000 <= r0 - 1 <= 10000)%R ->
  StronglySorted Rle (history ++ later) ->
  Forall (fun s => (t < s <= t + 700 * DingModelFrequency.tauc self)%R)
         later ->
  DingModelFrequency.calculate_cn_dot
    (DingModelFrequency.set_is_approximated self false)
    cn unused_cn_sum t (Some (history ++ later))
  = DingModelFrequency.calculate_cn_dot
      (DingModelFrequency.set_is_approximated self false)
      cn unused_cn_sum t (Some history).
Proof.
  intros r0 _ _ _ Hlater.
  assert (Hfuture : Forall (fun s => (t < s)%R) later).
  { eapply Forall_impl; [| exact Hlater]. intros s Hs. apply Hs. }
  unfold DingModelFrequency.calculate_cn_dot.
  cbn [DingModelFrequency.is_approximated
       DingModelFrequency.set_is_approximated].
  rewrite !cn_sum_fun_spec. cbn [bind]. do 2 f_equal.
  cbn [DingModelFrequency.is_approximated
       DingModelFrequency.set_is_approximated].
  rewrite Cn_sum_spec_app, (Cn_sum_spec_future _ _ _ later Hfuture).
  ring.
Qed.

Lemma future_stimulations_do_not_act_witness :
  let self := DingModelFrequency.init None false in
  DingModelFrequency.calculate_cn_dot
    (DingModelFrequency.set_is_approximated self false)
    0 None 1 (Some ([0; 1] ++ [2; 3]))%R
  = DingModelFrequency.calculate_cn_dot
      (DingModelFrequency.set_is_approximated self false)
      0 None 1 (Some [0; 1])%R.
Proof.
  intros self.
  apply (future_stimulations_do_not_act self 0 1 [0; 1]%R [2; 3]%R None).
  - cbn [self DingModelFrequency.tauc DingModelFrequency.init]. lra.
  - cbv [self DingModelFrequency.get_r0 DingModelFrequency.km_rest
         DingModelFrequency.r0_km_relationship DingModelFrequency.init].
    lra.
  - repeat constructor; lra.
  - cbn [self DingModelFrequency.tauc DingModelFrequency.init].
    repeat constructor; lra.
Defined.

(** The state at rest stays at rest until the first stimulation: in
    exact mode, while every stimulation of the sorted history lies
    after the current time, [system_dynamics] at the rest state returns
    the zero derivative.  The constants [km_rest] and [tau1_rest], the
    two divisors at rest, are not zero and the time constant is at
    least a microsecond; the stimulations are at most 700 time
    constants ahead and [R0] is within 10000 of 1, so that [1 / tauc],
    the exponentials and the products of the sum all stay within the
    range of the floats. *)
Theorem rest_state_is_equilibrium
        (self : DingModelFrequency.model) (t fl fv : R)
        (t_stim_prev : list R) (unused_cn_sum : option R) :
  let r0 :=
    DingModelFrequency.get_r0 self (DingModelFrequency.km_rest self) in
  (1 / 1000000 <= DingModelFrequency.tauc self)%R ->
  (DingModelFrequency.km_rest self <> 0)%R ->
  (DingModelFrequency.tau1_rest self <> 0)%R ->
  (- 10000 <= r0 - 1 <= 10000)%R ->
  StronglySorted Rle t_stim_prev ->
  Forall (fun s => (t < s <= t + 700 * DingModelFrequency.tauc self)%R)
         t_stim_prev ->
  DingModelFrequency.system_dynamics
    (DingModelFrequency.set_is_approximated self false)
    (fst DingModelFrequency.standard_rest_values)
    (snd DingModelFrequency.standard_rest_values)
    t (Some t_stim_prev) unused_cn_sum fl fv
  = Ok (0%R, 0%R).
Proof.
  intros r0 _ _ _ _ _ Hahead.
  assert (Hfuture : Forall (fun s => (t < s)%R) t_stim_prev).
  { eapply Forall_impl; [| exact Hahead]. intros s Hs. apply Hs. }
  unfold DingModelFrequency.system_dynamics,
    DingModelFrequency.calculate_cn_dot.
  cbn [DingModelFrequency.is_approximated
       DingModelFrequency.set_is_approximated
       DingModelFrequency.standard_rest_values fst snd].
  rewrite cn_sum_fun_spec. cbn [bind].
  cbn [DingModelFrequency.is_approximated
       DingModelFrequency.set_is_approximated].
  rewrite (Cn_sum_spec_future _ _ _ t_stim_prev Hfuture).
  f_equal. f_equal.
  - unfold DingModelFrequency.cn_dot_fun, Rdiv. ring.
  - unfold DingModelFrequency.f_dot_fun, Rdiv. ring.
Qed.

Lemma rest_state_is_equilibrium_witness :
  DingModelFrequency.system_dynamics
    (DingModelFrequency.set_is_approximated
       (DingModelFrequency.init None false) false)
    (fst DingModelFrequency.standard_rest_values)
    (snd DingModelFrequency.standard_rest_values)
    0 (Some [1; 2]%R) None 1 1
  = Ok (0%R, 0%R).
Proof.
  refine (rest_state_is_equilibrium
            (DingModelFrequency.init None false) 0 1 1
            [1; 2]%R None _ _ _ _ _ _);
    cbv [DingModelFrequency.get_r0 DingModelFrequency.km_rest
         DingModelFrequency.tau1_rest DingModelFrequency.tauc
         DingModelFrequency.r0_km_relationship DingModelFrequency.init];
    try lra; repeat constructor; lra.
Defined.

Section SignFacts.

Open Scope R_scope.

(** The saturation [Cn / (Km + Cn)] lies in [0, 1). *)
Lemma saturation_bounds (cn km : R) :
  0 <= cn -> 0 < km -> 0 <= cn / (km + cn) < 1.
Proof.
  intros Hcn Hkm.
  assert (Hpos : 0 < km + cn) by lra.
  pose proof (Rinv_0_lt_compat _ Hpos) as Hinv.
  assert (Hone : (km + cn) * / (km + cn) = 1) by (apply Rinv_r; lra).
  unfold Rdiv. split; nra.
Qed.

Lemma quotient_nonneg (a b : R) : 0 <= a -> 0 < b -> 0 <= a / b.
Proof.
  intros Ha Hb. pose proof (Rinv_0_lt_compat _ Hb). unfold Rdiv. nra.
Qed.

End SignFacts.

(** On the boundary of the non-negative states the derivative points
    inwards, and the force rate is bounded.  Let [Cn] and [Tau2] be
    non-negative, [Km] positive, [Tau1] at least a microsecond, and
    [A] and the two modifiers lie between 0 and 1000000: both divisors
    of the force equation are positive and no product leaves the range
    of the floats.  Then the force derivative at [F = 0] is not
    negative; with a non-negative forcing term and a [tauc] of at least
    a microsecond the calcium derivative at [Cn = 0] is not negative;
    and for [F] between 0 and 1000000 the force derivative is at most
    [A * force_length_mod * force_velocity_mod]. *)
Theorem derivatives_keep_states_nonnegative
        (self : DingModelFrequency.model)
        (cn f a tau1 km fl fv cn_sum : R) :
  (0 <= cn)%R -> (0 < km)%R -> (1 / 1000000 <= tau1)%R ->
  (0 <= DingModelFrequency.tau2 self)%R ->
  (0 <= a <= 1000000)%R -> (0 <= fl <= 1000000)%R ->
  (0 <= fv <= 1000000)%R ->
  (0 <= DingModelFrequency.f_dot_fun self cn 0 a tau1 km fl fv)%R
  /\ (0 <= cn_sum -> 1 / 1000000 <= DingModelFrequency.tauc self ->
      0 <= DingModelFrequency.cn_dot_fun self 0 cn_sum)%R
  /\ (0 <= f <= 1000000 ->
      DingModelFrequency.f_dot_fun self cn f a tau1 km fl fv
      <= a * fl * fv)%R.
Proof.
  intros Hcn Hkm Htau1 Htau2 [Ha _] [Hfl _] [Hfv _].
  pose proof (saturation_bounds cn km Hcn Hkm) as [Hx0 Hx1].
  assert (Hden : (0 < tau1
                      + DingModelFrequency.tau2 self * (cn / (km + cn)))%R)
    by nra.
  split; [| split].
  - unfold DingModelFrequency.f_dot_fun.
    replace (0 / (tau1 + DingModelFrequency.tau2 self * (cn / (km + cn))))%R
      with 0%R by (unfold Rdiv; ring).
    repeat apply Rmult_le_pos; try lra. nra.
  - intros Hs Htau. unfold DingModelFrequency.cn_dot_fun.
    assert (Hpos : (0 < DingModelFrequency.tauc self)%R) by lra.
    pose proof (quotient_nonneg cn_sum _ Hs Hpos) as Hq.
    unfold Rdiv in *. lra.
  - intros [Hf _]. unfold DingModelFrequency.f_dot_fun.
    pose proof (quotient_nonneg f _ Hf Hden) as Hq.
    assert (Hflv : (0 <= fl * fv)%R) by (apply Rmult_le_pos; lra).
    assert (Hterm : (a * (cn / (km + cn))
                     - f / (tau1 + DingModelFrequency.tau2 self
                                   * (cn / (km + cn))) <= a)%R) by nra.
    rewrite !Rmult_assoc. nra.
Qed.

Lemma derivatives_keep_states_nonnegative_witness :
  let self := DingModelFrequency.init None false in
  (0 <= DingModelFrequency.f_dot_fun
          self 1 0 (DingModelFrequency.a_rest self)
          (DingModelFrequency.tau1_rest self)
          (DingModelFrequency.km_rest self) 1 1)%R.
Proof.
  intros self.
  refine (proj1 (derivatives_keep_states_nonnegative
                   self 1 0 (DingModelFrequency.a_rest self)
                   (DingModelFrequency.tau1_rest self)
                   (DingModelFrequency.km_rest self) 1 1 0
                   _ _ _ _ _ _ _));
    cbn [self DingModelFrequency.a_rest DingModelFrequency.km_rest
         DingModelFrequency.tau1_rest DingModelFrequency.tau2
         DingModelFrequency.init]; lra.
Defined.

(* ================================================================= *)
(** * Dictionaries and [_fill_dict] *)

Section DictFacts.

Import Dict.

Context {V : Type}.

Lemma get_set (d : dict V) (k k' : String.string) (v : V) :
  get (set d k v) k' = if String.eqb k' k then Some v else get d k'.
Proof.
  induction d as [| [k0 v0] d IH]; cbn [set get].
  - reflexivity.
  - destruct (String.eqb_spec k k0) as [-> | Hk]; cbn [get].
    + destruct (String.eqb k' k0); reflexivity.
    + rewrite IH.
      destruct (String.eqb_spec k' k0) as [-> | _]; [| reflexivity].
      destruct (String.eqb_spec k0 k) as [E | _]; [congruence | reflexivity].
Qed.

Lemma get_absent (d : dict V) (k : String.string) :
  ~ In k (keys d) -> get d k = None.
Proof.
  induction d as [| [k0 v0] d IH]; intros Hk; cbn [get]; [reflexivity |].
  destruct (String.eqb_spec k k0) as [-> | _].
  - exfalso. apply Hk. left. reflexivity.
  - apply IH. intros Hin. apply Hk. right. exact Hin.
Qed.

Lemma mem_In (d : dict V) (k : String.string) :
  mem d k = true <-> In k (keys d).
Proof.
  unfold mem. rewrite existsb_exists. split.
  - intros (x & Hx & E). apply String.eqb_eq in E. subst. exact Hx.
  - intros Hin. exists k. split; [exact Hin | apply String.eqb_refl].
Qed.

Lemma keys_set (d : dict V) (k : String.string) (v : V) :
  keys (set d k v) = if mem d k then keys d else keys d ++ [k].
Proof.
  unfold mem, keys.
  induction d as [| [k0 v0] d IH]; cbn [set map existsb fst app];
    [reflexivity |].
  destruct (String.eqb_spec k k0) as [-> | Hk]; cbn [map fst orb].
  - reflexivity.
  - rewrite IH. destruct (existsb (String.eqb k) (map fst d)); reflexivity.
Qed.

Lemma get_merge (o : dict V) :
  NoDup (keys o) ->
  forall (d : dict V) (k : String.string),
    get (merge d o) k
    = match get o k with
      | Some v => Some v
      | None => get d k
      end.
Proof.
  unfold merge.
  induction o as [| [k1 v1] o IH]; intros Hnd d k; cbn [fold_left get];
    [reflexivity |].
  cbn [keys map fst] in Hnd. inversion Hnd as [| ? ? Hk1 Hrest]; subst.
  rewrite (IH Hrest). cbn [fst snd]. rewrite get_set.
  destruct (String.eqb_spec k k1) as [-> | _]; [| reflexivity].
  rewrite (get_absent o k1 Hk1). reflexivity.
Qed.

Lemma keys_merge (o : dict V) :
  NoDup (keys o) ->
  forall d : dict V,
    keys (merge d o)
    = keys d ++ filter (fun k => negb (mem d k)) (keys o).
Proof.
  unfold merge.
  induction o as [| [k1 v1] o IH]; intros Hnd d.
  - cbn [fold_left]. change (keys (@nil (String.string * V))) with
      (@nil String.string). cbn [filter]. symmetry. apply app_nil_r.
  - change (keys ((k1, v1) :: o)) with (k1 :: keys o) in *.
    inversion Hnd as [| ? ? Hk1 Hrest]; subst.
    cbn [fold_left filter fst snd]. rewrite (IH Hrest).
    pose proof (keys_set d k1 v1) as Hkeys.
    destruct (mem d k1) eqn:E; cbn [negb]; rewrite Hkeys.
    + f_equal. apply filter_ext. intros k.
      unfold mem. rewrite Hkeys. reflexivity.
    + rewrite <- app_assoc. cbn [app]. do 2 f_equal.
      apply filter_ext_in. intros k Hk. f_equal.
      unfold mem. rewrite Hkeys, existsb_app. cbn [existsb].
      destruct (String.eqb_spec k k1) as [-> | _]; [contradiction |].
      rewrite !orb_false_r. reflexivity.
Qed.

Lemma merge_filled (d o : dict V) :
  NoDup (keys d) -> NoDup (keys o) -> filled d o (merge d o).
Proof.
  intros Hd Ho. split; [| split].
  - intros k. apply get_merge. exact Ho.
  - apply keys_merge. exact Ho.
  - rewrite (keys_merge o Ho). apply NoDup_app.
    + exact Hd.
    + apply NoDup_filter. exact Ho.
    + intros k Hk Hin. apply filter_In in Hin. destruct Hin as [_ Hneg].
      apply mem_In in Hk. rewrite Hk in Hneg. discriminate.
Qed.

End DictFacts.

(** [_fill_dict] makes each of its three dictionaries complete: a key
    resolves to the caller's value when the caller gave one and to the
    default otherwise, so that reading a default key of the result
    never fails; the default keys come first, in their order, then the
    caller's other keys, and no key stands twice.  An argument that is
    [None] counts as empty. *)
Theorem fill_dict_completes {U : Type}
        (pulse_width pulse_intensity objective
         : option (Dict.dict (Dict.value U))) :
  let given (d : option (Dict.dict (Dict.value U))) :=
    match d with None => [] | Some x => x end in
  NoDup (Dict.keys (given pulse_width)) ->
  NoDup (Dict.keys (given pulse_intensity)) ->
  NoDup (Dict.keys (given objective)) ->
  let result := OcpFes._fill_dict pulse_width pulse_intensity objective in
  Dict.filled OcpFes.default_pulse_width (given pulse_width)
              (fst (fst result))
  /\ Dict.filled OcpFes.default_pulse_intensity (given pulse_intensity)
                 (snd (fst result))
  /\ Dict.filled OcpFes.default_objective (given objective) (snd result)
  /\ (forall k, In k ["fixed"; "min"; "max"; "bimapping"]%string ->
                Dict.get (fst (fst result)) k <> None
                /\ Dict.get (snd (fst result)) k <> None).
Proof.
  intros given Hpw Hpi Hobj result.
  assert (Hdefault : forall (d : Dict.dict (Dict.value U)),
             NoDup (Dict.keys (@OcpFes.default_pulse_width U))
             /\ NoDup (Dict.keys (@OcpFes.default_objective U))).
  { intros _. split; repeat constructor; cbn; intuition discriminate. }
  destruct (Hdefault []) as [Hd1 Hd2].
  assert (F1 : Dict.filled OcpFes.default_pulse_width (given pulse_width)
                           (fst (fst result)))
    by (apply merge_filled; assumption).
  assert (F2 : Dict.filled OcpFes.default_pulse_intensity
                           (given pulse_intensity) (snd (fst result)))
    by (apply merge_filled; assumption).
  assert (F3 : Dict.filled OcpFes.default_objective (given objective)
                           (snd result))
    by (apply merge_filled; assumption).
  repeat split; try apply F1; try apply F2; try apply F3.
  - destruct F1 as [Hget _]. rewrite Hget.
    destruct (Dict.get (given pulse_width) k); [discriminate |].
    match goal with
    | Hin : In k _ |- _ =>
        destruct Hin as [<- | [<- | [<- | [<- | []]]]]; discriminate
    end.
  - destruct F2 as [Hget _]. rewrite Hget.
    destruct (Dict.get (given pulse_intensity) k); [discriminate |].
    match goal with
    | Hin : In k _ |- _ =>
        destruct Hin as [<- | [<- | [<- | [<- | []]]]]; discriminate
    end.
Qed.

Lemma fill_dict_completes_witness :
  let result :=
    OcpFes._fill_dict
      (Some [("max"%string, Dict.PyObject 6%nat);
             ("unit"%string, Dict.PyObject 7%nat)])
      None None in
  Dict.get (fst (fst result)) "max"%string = Some (Dict.PyObject 6%nat)
  /\ Dict.keys (fst (fst result))
     = ["fixed"; "min"; "max"; "bimapping"; "unit"]%string.
Proof.
  intros result.
  destruct (fill_dict_completes
              (Some [("max"%string, Dict.PyObject 6%nat);
                     ("unit"%string, Dict.PyObject 7%nat)])
              None None) as ((Hget & Hkeys & _) & _).
  - repeat constructor; cbn; intuition discriminate.
  - constructor.
  - constructor.
  - split; [apply Hget | apply Hkeys].
Defined.
